(** * Video game sales dashboard: the filter-and-aggregate pipeline

    A shallow embedding of [dash_videogame.py].  The script is re-run from
    top to bottom on every user interaction; each top-level assignment of
    the script is a definition of the same name below, a function of the
    variables it reads.  The pandas, numpy, Python and Streamlit primitives
    the script calls are modelled first, each by its documented behaviour.

    Numbers: the sales columns hold decimal values and are modelled as exact
    rationals ([Q]); [Year] is an integer that may be absent (NaN), modelled
    as [option Z].  The Pearson coefficients need a square root and are
    valued in [R], with [None] for NaN. *)

From Stdlib Require Import String Ascii List Bool Arith ZArith QArith Lia.
From Stdlib Require Import Permutation Sorted.
From Stdlib Require Import Reals Qreals Lra.
Import ListNotations.

Local Open Scope string_scope.
Local Open Scope list_scope.
Local Open Scope Z_scope.

(** ** Python exceptions and fallible computations *)

Inductive Exception : Type :=
| ValueError (msg : string).

Inductive Result (A : Type) : Type :=
| Ok (a : A)
| Raise (e : Exception).

Arguments Ok {A} a.
Arguments Raise {A} e.

Definition bind {A B : Type} (m : Result A) (k : A -> Result B) : Result B :=
  match m with
  | Ok a => k a
  | Raise e => Raise e
  end.

Notation "x <- m ;; k" := (bind m (fun x => k))
  (at level 61, m at next level, right associativity).

(** ** The data model *)

(** One line of [cleaned_vgsales.csv].  [pd.read_csv] reads an empty cell
    and cells such as [N/A] as missing: a missing Year is NaN and a missing
    Publisher is [None] here. *)
Record Row : Type := mkRow {
  Name : string;
  Platform : string;
  Year : option Z;
  Genre : string;
  Publisher : option string;
  NA_Sales : Q;
  EU_Sales : Q;
  JP_Sales : Q;
  Other_Sales : Q;
  Global_Sales : Q
}.

(** A data frame is the list of its rows in order, each with its index
    label.  Boolean indexing and sorting keep the labels of the rows. *)
Definition DataFrame : Type := list (nat * Row).

(** [pd.read_csv]: the rows of the file under a fresh [RangeIndex]. *)
Definition read_csv (rows : list Row) : DataFrame :=
  combine (seq 0 (length rows)) rows.

(** [df.index] and [df[c]] (the values of a column, in row order). *)
Definition index (df : DataFrame) : list nat := map fst df.

Definition col {A : Type} (c : Row -> A) (df : DataFrame) : list A :=
  map (fun ir => c (snd ir)) df.

(** ** pandas primitives *)

(** [s >= k] and [s <= k] on a float column: a comparison with NaN is
    False. *)
Definition ge_scalar (s : list (option Z)) (k : Z) : list bool :=
  map (fun v => match v with Some y => k <=? y | None => false end) s.

Definition le_scalar (s : list (option Z)) (k : Z) : list bool :=
  map (fun v => match v with Some y => y <=? k | None => false end) s.

(** [s == k] on a string column; [k] is what a selectbox returned, a
    string or Python's [None], and no string equals [None]. *)
Definition eq_scalar (s : list string) (k : option string) : list bool :=
  map (fun v => match k with Some k' => String.eqb v k' | None => false end) s.

(** [a & b] on two masks over the same index. *)
Definition mask_and (a b : list bool) : list bool :=
  map (fun xy => andb (fst xy) (snd xy)) (combine a b).

(** [df[mask]]: the rows whose mask entry is True. *)
Definition getitem_mask (df : DataFrame) (mask : list bool) : DataFrame :=
  map fst (filter snd (combine df mask)).

(** [s.dropna()]. *)
Definition dropna {A : Type} (s : list (option A)) : list A :=
  flat_map (fun v => match v with Some a => [a] | None => [] end) s.

(** [s.unique()]: the distinct values in order of first appearance. *)
Definition unique {A : Type} (eqb : A -> A -> bool) (s : list A) : list A :=
  fold_left (fun seen v => if existsb (eqb v) seen then seen else seen ++ [v])
            s [].

(** [s.sum()]; the sum of an empty column is 0. *)
Definition sum (s : list Q) : Q := fold_left Qplus s 0%Q.

(** [df.head(n)]. *)
Definition head {A : Type} (n : nat) (l : list A) : list A := firstn n l.

(** [l.take(indexer)]: the elements of [l] at the given positions, in the
    order of the positions.  The positions [argsort] returns are always in
    range. *)
Definition take {A : Type} (indexer : list nat) (l : list A) : list A :=
  flat_map (fun i => match nth_error l i with Some a => [a] | None => [] end)
           indexer.

(** ** Python builtins *)

(** Insertion into a sorted list: [x] goes in front of the first element
    at which [stop x] holds. *)
Fixpoint insert_by {A : Type} (stop : A -> A -> bool) (x : A) (l : list A)
    : list A :=
  match l with
  | [] => [x]
  | y :: l' => if stop x y then x :: l else y :: insert_by stop x l'
  end.

Definition isort_by {A : Type} (stop : A -> A -> bool) (l : list A) : list A :=
  fold_right (insert_by stop) [] l.

(** [sorted(l)]: Python's sort is stable; an element stays in front of the
    equal elements that followed it. *)
Definition sorted {A : Type} (leb : A -> A -> bool) (l : list A) : list A :=
  isort_by leb l.

(** [min(l)] and [max(l)] raise [ValueError] on an empty list. *)
Definition py_min (l : list Z) : Result Z :=
  match l with
  | [] => Raise (ValueError "min() arg is an empty sequence")
  | y :: l' => Ok (fold_left Z.min l' y)
  end.

Definition py_max (l : list Z) : Result Z :=
  match l with
  | [] => Raise (ValueError "max() arg is an empty sequence")
  | y :: l' => Ok (fold_left Z.max l' y)
  end.

(** ** numpy's default sort

    [sort_values] and [sort_index] are called without [kind], so they sort
    with numpy's [kind="quicksort"].  numpy documents that sort as not
    stable and picks its algorithm by element type, length and processor;
    what it guarantees is that [argsort] returns a permutation of the
    positions that puts the keys in order.  The script is therefore
    modelled over any sort with that guarantee. *)

Definition total {K : Type} (leb : K -> K -> bool) : Prop :=
  forall a b, leb a b = true \/ leb b a = true.

Definition transitive {K : Type} (leb : K -> K -> bool) : Prop :=
  forall a b c, leb a b = true -> leb b c = true -> leb a c = true.

Class NumpySort : Type := {
  argsort : forall K : Type, (K -> K -> bool) -> list K -> list nat;
  argsort_perm : forall (K : Type) (leb : K -> K -> bool) (keys : list K),
      Permutation (argsort K leb keys) (seq 0 (length keys));
  argsort_sorted : forall (K : Type) (leb : K -> K -> bool) (keys : list K),
      total leb -> transitive leb ->
      StronglySorted (fun a b => leb a b = true)
                     (take (argsort K leb keys) keys)
}.

(** A sort with that guarantee, by insertion over the keys paired with
    their positions; it keeps equal keys in their original order. *)
Definition argsort_by {K : Type} (stop : K -> K -> bool) (keys : list K)
    : list nat :=
  map fst (isort_by (fun a b => stop (snd a) (snd b))
                    (combine (seq 0 (length keys)) keys)).

Definition stable_argsort (K : Type) (leb : K -> K -> bool) (keys : list K)
    : list nat :=
  argsort_by leb keys.

(** ** Streamlit widgets

    A widget created without [key] is identified by its label and its
    parameters, for a selectbox the option list.  The session keeps the
    value the user chose for a widget as long as the widget is rendered with
    the same identity; a selectbox whose options changed is a new widget and
    starts from its default, the option at index 0.  A selectbox without
    options returns [None]. *)

Record SelectState : Type := mkSelect {
  sel_options : list string;
  sel_index : nat
}.

Record SessionState : Type := mkSession {
  st_year_range : option (Z * Z);
  st_platform : option SelectState;
  st_genre : option SelectState
}.

Definition slider (st : option (Z * Z)) (value : Z * Z) : Z * Z :=
  match st with
  | Some v => v
  | None => value
  end.

Definition selectbox (st : option SelectState) (options : list string)
    : option string :=
  let i := match st with
           | Some s =>
               if list_eq_dec string_dec (sel_options s) options
               then sel_index s else 0%nat
           | None => 0%nat
           end in
  nth_error options i.

(** ** The sidebar filters (script lines 19-34) *)

Definition years (df : DataFrame) : list Z :=
  sorted Z.leb (unique Z.eqb (dropna (col Year df))).

(** The bounds handed to the year slider, [int(min(years))] and
    [int(max(years))]. *)
Definition year_bounds (df : DataFrame) : Result (Z * Z) :=
  lo <- py_min (years df) ;;
  hi <- py_max (years df) ;;
  Ok (lo, hi).

Definition platforms (df : DataFrame) : list string :=
  sorted String.leb (unique String.eqb (col Platform df)).

Definition selected_platform (df : DataFrame) (st : SessionState)
    : option string :=
  selectbox (st_platform st) (platforms df).

Definition genres (df : DataFrame) (selected_platform : option string)
    : list string :=
  unique String.eqb
    (col Genre (getitem_mask df (eq_scalar (col Platform df) selected_platform))).

Definition selected_genre (df : DataFrame) (st : SessionState)
    : option string :=
  selectbox (st_genre st)
            (sorted String.leb (genres df (selected_platform df st))).

Definition filtered_df (df : DataFrame) (year_range : Z * Z)
    (selected_platform selected_genre : option string) : DataFrame :=
  getitem_mask df
    (mask_and
      (mask_and
        (mask_and (ge_scalar (col Year df) (fst year_range))
                  (le_scalar (col Year df) (snd year_range)))
        (eq_scalar (col Platform df) selected_platform))
      (eq_scalar (col Genre df) selected_genre)).

(** ** Summary metrics (script lines 39-41) *)

(** [df.groupby(key)[val].sum()]: one entry per distinct key, keys in
    sorted order, each with the sum of [val] over the rows of its group.
    [groupby] leaves out the rows whose key is missing. *)
Definition groupby_sum (key : Row -> option string) (val : Row -> Q)
    (df : DataFrame) : list (string * Q) :=
  map (fun k =>
         (k, sum (col val
                   (filter (fun ir => match key (snd ir) with
                                      | Some k' => String.eqb k' k
                                      | None => false
                                      end) df))))
      (sorted String.leb (unique String.eqb (dropna (col key df)))).

Fixpoint idxmax_from (best : string * Q) (s : list (string * Q)) : string :=
  match s with
  | [] => fst best
  | kv :: s' =>
      if Qle_bool (snd kv) (snd best) then idxmax_from best s'
      else idxmax_from kv s'
  end.

(** [s.idxmax()]: the label of the first maximum; raises on an empty
    series. *)
Definition idxmax (s : list (string * Q)) : Result string :=
  match s with
  | [] => Raise (ValueError "attempt to get argmax of an empty sequence")
  | kv :: s' => Ok (idxmax_from kv s')
  end.

Definition total_global_sales (filtered_df : DataFrame) : Q :=
  sum (col Global_Sales filtered_df).

Definition total_games (filtered_df : DataFrame) : nat := length filtered_df.

Definition top_publisher (filtered_df : DataFrame) : Result string :=
  idxmax (groupby_sum Publisher Global_Sales filtered_df).

(** ** Platform-only panels (script lines 66-74) *)

Definition pie_df (df : DataFrame) (selected_platform : option string)
    : DataFrame :=
  getitem_mask df (eq_scalar (col Platform df) selected_platform).

(** What [px.pie] and [sns.boxplot] are handed: the frame and the two
    columns to plot. *)
Record Chart : Type := mkChart {
  chart_data : DataFrame;
  chart_names : Row -> string;
  chart_values : Row -> Q
}.

Definition fig3 (pie_df : DataFrame) : Chart := mkChart pie_df Genre Global_Sales.

Definition fig4 (pie_df : DataFrame) : Chart := mkChart pie_df Genre Global_Sales.

(** ** Correlation of the sales columns (script line 83) *)

Definition sales_columns : list (Row -> Q) :=
  [NA_Sales; EU_Sales; JP_Sales; Other_Sales; Global_Sales].

Definition mean (xs : list Q) : Q :=
  (sum xs / inject_Z (Z.of_nat (length xs)))%Q.

(** Sum of the products of the deviations from the means. *)
Definition comoment (xs ys : list Q) : Q :=
  sum (map (fun xy => ((fst xy - mean xs) * (snd xy - mean ys))%Q)
           (combine xs ys)).

(** One entry of [DataFrame.corr()], Pearson with [min_periods=1]: NaN
    when there is no observation or when the divisor, the root of the
    product of the two sums of squares, is zero. *)
Definition pearson (xs ys : list Q) : option R :=
  if (length xs <? 1)%nat then None
  else
    let d := (comoment xs xs * comoment ys ys)%Q in
    if Qeq_bool d 0 then None
    else Some (Q2R (comoment xs ys) / sqrt (Q2R d))%R.

Definition corr (filtered_df : DataFrame) : list (list (option R)) :=
  map (fun a => map (fun b => pearson (col a filtered_df) (col b filtered_df))
                    sales_columns)
      sales_columns.

(** ** Regional map (script lines 99-119) *)

Record RegionInfo : Type := mkRegion {
  Region : string;
  lat : Q;
  lon : Q;
  column : string
}.

Definition region_data : list RegionInfo :=
  [ mkRegion "North America" 40.0 (-100.0) "NA_Sales";
    mkRegion "Europe" 54.5 15.3 "EU_Sales";
    mkRegion "Japan" 36.2 138.2 "JP_Sales";
    mkRegion "Other" (-8.8) 115.2 "Other_Sales" ].

Record MapPoint : Type := mkPoint {
  mp_Region : string;
  mp_Sales : Q;
  mp_lat : Q;
  mp_lon : Q
}.

(** [df.columns] of the loaded file. *)
Definition columns : list string :=
  [ "Name"; "Platform"; "Year"; "Genre"; "Publisher";
    "NA_Sales"; "EU_Sales"; "JP_Sales"; "Other_Sales"; "Global_Sales" ].

(** [df[c]] for a column named by a string; the map sums sales columns
    only. *)
Definition getitem_sales (c : string) : option (Row -> Q) :=
  if String.eqb c "NA_Sales" then Some NA_Sales
  else if String.eqb c "EU_Sales" then Some EU_Sales
  else if String.eqb c "JP_Sales" then Some JP_Sales
  else if String.eqb c "Other_Sales" then Some Other_Sales
  else if String.eqb c "Global_Sales" then Some Global_Sales
  else None.

Definition map_data (filtered_df : DataFrame) : list MapPoint :=
  fold_left
    (fun map_data item =>
       if existsb (String.eqb (column item)) columns then
         match getitem_sales (column item) with
         | Some c =>
             map_data ++ [ mkPoint (Region item) (sum (col c filtered_df))
                                   (lat item) (lon item) ]
         | None => map_data
         end
       else map_data)
    region_data [].

(** ** Panels that sort (script lines 48, 56, 90 and 140) *)

Section Sorting.

Context {np : NumpySort}.

(** [sort_values(by=..., ascending=False)] and [sort_index()]. *)
Definition sort_values_desc {A K : Type} (leb : K -> K -> bool)
    (by_ : A -> K) (l : list A) : list A :=
  take (argsort K (fun a b => leb b a) (map by_ l)) l.

Definition sort_index {A : Type} (s : list (Z * A)) : list (Z * A) :=
  take (argsort Z Z.leb (map fst s)) s.

(** [s.value_counts()]: the number of occurrences of each distinct
    non-missing value, most frequent first. *)
Definition value_counts (s : list (option Z)) : list (Z * nat) :=
  let vals := dropna s in
  sort_values_desc Nat.leb snd
    (map (fun v => (v, count_occ Z.eq_dec vals v)) (unique Z.eqb vals)).

Definition top_games (filtered_df : DataFrame) : DataFrame :=
  head 10 (sort_values_desc Qle_bool (fun ir => Global_Sales (snd ir))
                            filtered_df).

(** The frame with columns [Year] and [Count]: [reset_index] turns the
    index into the first column. *)
Definition games_year (filtered_df : DataFrame) : list (Z * nat) :=
  sort_index (value_counts (col Year filtered_df)).

Definition top_na (filtered_df : DataFrame) : list (string * Q) :=
  head 5 (sort_values_desc Qle_bool snd
                           (groupby_sum Publisher NA_Sales filtered_df)).

(** The table under the expander (script line 140). *)
Definition table (filtered_df : DataFrame) : DataFrame :=
  sort_values_desc Qle_bool (fun ir => Global_Sales (snd ir)) filtered_df.

(** ** The whole script *)

Record Dashboard : Type := mkDashboard {
  d_year_range : Z * Z;
  d_selected_platform : option string;
  d_selected_genre : option string;
  d_filtered_df : DataFrame;
  d_total_global_sales : Q;
  d_total_games : nat;
  d_top_publisher : string;
  d_top_games : DataFrame;
  d_games_year : list (Z * nat);
  d_fig3 : Chart;
  d_fig4 : Chart;
  d_corr : list (list (option R));
  d_top_na : list (string * Q);
  d_map_data : list MapPoint;
  d_table : DataFrame
}.

(** One run of the script over the rows of the file and the widget
    values of the session. *)
Definition script (rows : list Row) (st : SessionState) : Result Dashboard :=
  let df := read_csv rows in
  _ <- year_bounds df ;;
  let year_range := slider (st_year_range st) (1980, 2020) in
  let sp := selected_platform df st in
  let sg := selected_genre df st in
  let fdf := filtered_df df year_range sp sg in
  publisher <- top_publisher fdf ;;
  Ok (mkDashboard year_range sp sg fdf
        (total_global_sales fdf) (total_games fdf) publisher
        (top_games fdf) (games_year fdf)
        (fig3 (pie_df df sp)) (fig4 (pie_df df sp))
        (corr fdf) (top_na fdf) (map_data fdf) (table fdf)).

End Sorting.

(** ** User interaction

    The page shows the widgets of the last run.  An interaction changes the
    value of one widget and re-runs the script; the front end only offers
    ranges with [low <= high] and the options that are on the page.  After
    the run the session forgets the state of a widget that the run did not
    render under the same identity. *)

Inductive Event : Type :=
| SetYearRange (low high : Z)
| SetPlatform (i : nat)
| SetGenre (i : nat).

(** The options of the Genre selectbox on the page. *)
Definition displayed_genres (df : DataFrame) (st : SessionState) : list string :=
  sorted String.leb (genres df (selected_platform df st)).

Definition on_event (df : DataFrame) (st : SessionState) (ev : Event)
    : SessionState :=
  match ev with
  | SetYearRange low high =>
      if low <=? high
      then mkSession (Some (low, high)) (st_platform st) (st_genre st)
      else st
  | SetPlatform i =>
      if (i <? length (platforms df))%nat
      then mkSession (st_year_range st) (Some (mkSelect (platforms df) i))
                     (st_genre st)
      else st
  | SetGenre i =>
      if (i <? length (displayed_genres df st))%nat
      then mkSession (st_year_range st) (st_platform st)
                     (Some (mkSelect (displayed_genres df st) i))
      else st
  end.

Definition forget_stale (df : DataFrame) (st : SessionState) : SessionState :=
  mkSession (st_year_range st) (st_platform st)
    (match st_genre st with
     | Some s =>
         if list_eq_dec string_dec (sel_options s) (displayed_genres df st)
         then Some s else None
     | None => None
     end).

Definition step (df : DataFrame) (st : SessionState) (ev : Event)
    : SessionState :=
  forget_stale df (on_event df st ev).

(** The session of a page just opened: no widget has been touched. *)
Definition fresh_session : SessionState := mkSession None None None.

(** The sessions a user can reach from a fresh page. *)
Inductive reachable (df : DataFrame) : SessionState -> Prop :=
| reach_fresh : reachable df fresh_session
| reach_step st ev : reachable df st -> reachable df (step df st ev).

(** What every reachable session satisfies: a stored selection belongs to
    the widget on the page and points at one of its options. *)
Definition session_ok (df : DataFrame) (st : SessionState) : Prop :=
  (forall s, st_platform st = Some s ->
             sel_options s = platforms df /\
             (sel_index s < length (sel_options s))%nat) /\
  (forall s, st_genre st = Some s ->
             sel_options s = displayed_genres df st /\
             (sel_index s < length (sel_options s))%nat).

(** ** Properties of views and sessions *)

(** The predicate the four masks compute on one row. *)
Definition row_selected (year_range : Z * Z) (p g : option string)
    (ir : nat * Row) : bool :=
  (match Year (snd ir) with Some y => fst year_range <=? y | None => false end
   && match Year (snd ir) with Some y => y <=? snd year_range | None => false end
   && match p with Some k => String.eqb (Platform (snd ir)) k | None => false end
   && match g with Some k => String.eqb (Genre (snd ir)) k | None => false end)%bool.

(** What a row must satisfy to be in the filtered view. *)
Definition matches (year_range : Z * Z) (p g : string) (r : Row) : Prop :=
  (exists y, Year r = Some y /\ fst year_range <= y <= snd year_range) /\
  Platform r = p /\ Genre r = g.

Definition non_increasing (l : DataFrame) : Prop :=
  StronglySorted
    (fun a b => (Global_Sales (snd b) <= Global_Sales (snd a))%Q) l.

(** The number of rows of a view released in year [y]. *)
Definition year_count (view : DataFrame) (y : Z) : nat :=
  length (filter (fun ir => match Year (snd ir) with
                            | Some y' => Z.eqb y' y
                            | None => false
                            end) view).

(** The total of a column over the rows of a view. *)
Fixpoint column_total (c : Row -> Q) (view : DataFrame) : Q :=
  match view with
  | [] => 0
  | ir :: rest => c (snd ir) + column_total c rest
  end.

(** A row has the year [y]. *)
Definition has_year (df : DataFrame) (y : Z) : Prop :=
  exists ir, In ir df /\ Year (snd ir) = Some y.

(** Entry [(i, j)] of a matrix and the [i]-th sales column. *)
Definition corr_at (m : list (list (option R))) (i j : nat) : option R :=
  nth j (nth i m []) None.

Definition sales_column (i : nat) : Row -> Q := nth i sales_columns Global_Sales.

(** The sample variance of a column of at least two values. *)
Definition variance (xs : list Q) : Q :=
  (comoment xs xs / (inject_Z (Z.of_nat (length xs)) - 1))%Q.

(** Some row of a view has the key [k]. *)
Definition has_key (key : Row -> string) (view : DataFrame) (k : string)
    : Prop :=
  exists ir, In ir view /\ key (snd ir) = k.

(** The same for a column with missing cells, and the total of a column
    over the rows of a view whose key is [k]. *)
Definition has_group (key : Row -> option string) (view : DataFrame)
    (k : string) : Prop :=
  exists ir, In ir view /\ key (snd ir) = Some k.

Definition group_total (key : Row -> option string) (val : Row -> Q)
    (k : string) (view : DataFrame) : Q :=
  column_total val
    (filter (fun ir => match key (snd ir) with
                       | Some k' => String.eqb k' k
                       | None => false
                       end) view).

(** A row is selected by a platform, a genre or a year range. *)
Definition on_platform (sp : option string) (r : Row) : Prop :=
  Some (Platform r) = sp.

Definition of_genre (sg : option string) (r : Row) : Prop :=
  Some (Genre r) = sg.

Definition in_year_range (yr : Z * Z) (r : Row) : Prop :=
  exists y, Year r = Some y /\ fst yr <= y <= snd yr.

(** ** Sample data *)

(** Five lines of the sales file; the last one has no Year. *)
Definition sample_rows : list Row :=
  [ mkRow "Wii Sports" "Wii" (Some 2006) "Sports" (Some "Nintendo")
          41.49 29.02 3.77 8.46 82.74;
    mkRow "Super Mario Bros." "NES" (Some 1985) "Platform" (Some "Nintendo")
          29.08 3.58 6.81 0.77 40.24;
    mkRow "Mario Kart Wii" "Wii" (Some 2008) "Racing" (Some "Nintendo")
          15.85 12.88 3.79 3.31 35.82;
    mkRow "Duck Hunt" "NES" (Some 1984) "Shooter" (Some "Nintendo")
          26.93 0.63 0.28 0.47 28.31;
    mkRow "Madden NFL 2004" "PS2" None "Sports" (Some "Electronic Arts")
          4.26 0.26 0.01 0.71 5.23 ].

(** The three Wii releases of the scenario: genres Sports, Racing, Sports
    and Global_Sales 10, 5, 3. *)
Definition wii_rows : list Row :=
  [ mkRow "A" "Wii" (Some 2006) "Sports" (Some "Nintendo") 4 3 2 1 10;
    mkRow "B" "Wii" (Some 2007) "Racing" (Some "Nintendo") 2 1 1 1 5;
    mkRow "C" "Wii" (Some 2008) "Sports" (Some "Sega") 1 1 0.5 0.5 3 ].

(** Three releases on one platform and in one genre; the Publisher cell
    of the second is missing. *)
Definition unpublished_rows : list Row :=
  [ mkRow "D" "PC" (Some 2010) "Puzzle" (Some "Sega") 1 0.5 0 0.1 1.6;
    mkRow "E" "PC" (Some 2011) "Puzzle" None 5 1 0 0.5 6.5;
    mkRow "F" "PC" (Some 2012) "Puzzle" (Some "Sega") 1 0.2 0 0.1 1.3 ].

(** ** Facts about the primitives *)

Lemma mask_and_map {A : Type} (f g : A -> bool) (l : list A) :
  mask_and (map f l) (map g l) = map (fun a => andb (f a) (g a)) l.
Proof.
  unfold mask_and. induction l as [|a l IH]; simpl.
  - reflexivity.
  - f_equal. exact IH.
Qed.

Lemma getitem_mask_map (f : nat * Row -> bool) (df : DataFrame) :
  getitem_mask df (map f df) = filter f df.
Proof.
  unfold getitem_mask. induction df as [|x df IH]; simpl.
  - reflexivity.
  - destruct (f x); simpl; rewrite IH; reflexivity.
Qed.

Lemma filtered_df_filter df yr p g :
  filtered_df df yr p g = filter (row_selected yr p g) df.
Proof.
  unfold filtered_df, ge_scalar, le_scalar, eq_scalar, col.
  rewrite !map_map, !mask_and_map.
  apply getitem_mask_map.
Qed.

Lemma In_combine_seq {A : Type} (l : list A) (s i : nat) (a : A) :
  In (i, a) (combine (seq s (length l)) l) <->
  (s <= i)%nat /\ nth_error l (i - s) = Some a.
Proof.
  revert s. induction l as [|x l IH]; intros s; simpl.
  - split; [tauto|]. intros [_ H]. destruct (i - s)%nat; discriminate.
  - rewrite IH. split.
    + intros [H | [H1 H2]].
      * inversion H; subst. rewrite Nat.sub_diag. split; [lia | reflexivity].
      * split; [lia|]. replace (i - s)%nat with (S (i - S s)) by lia. exact H2.
    + intros [H1 H2]. destruct (Nat.eq_dec s i) as [->|Hne].
      * left. rewrite Nat.sub_diag in H2. simpl in H2. congruence.
      * right. split; [lia|].
        replace (i - s)%nat with (S (i - S s)) in H2 by lia. exact H2.
Qed.

Lemma In_read_csv rows i r :
  In (i, r) (read_csv rows) <-> nth_error rows i = Some r.
Proof.
  unfold read_csv. rewrite In_combine_seq, Nat.sub_0_r.
  split; [tauto | intros H; split; [lia | exact H]].
Qed.

Lemma index_read_csv rows : index (read_csv rows) = seq 0 (length rows).
Proof.
  unfold index, read_csv. generalize 0%nat.
  induction rows as [|x l IH]; intros s; simpl.
  - reflexivity.
  - f_equal. apply IH.
Qed.

Lemma NoDup_index_filter (f : nat * Row -> bool) (df : DataFrame) :
  NoDup (index df) -> NoDup (index (filter f df)).
Proof.
  unfold index. induction df as [|x df IH]; simpl; intros H.
  - constructor.
  - inversion H as [|? ? Hx Hnd]; subst. destruct (f x); simpl.
    + constructor; [|auto]. intros Hin. apply Hx.
      apply in_map_iff in Hin as [y [Hy Hin]].
      apply filter_In in Hin as [Hin _].
      apply in_map_iff. exists y. auto.
    + auto.
Qed.

Lemma row_selected_matches yr p g ir :
  row_selected yr (Some p) (Some g) ir = true <-> matches yr p g (snd ir).
Proof.
  unfold row_selected, matches.
  rewrite !andb_true_iff, !String.eqb_eq.
  destruct (Year (snd ir)) as [y|].
  - rewrite !Z.leb_le. split.
    + intros [[[H1 H2] H3] H4]. repeat split; auto. exists y. auto.
    + intros [[y' [Hy H12]] [H3 H4]]. inversion Hy; subst. tauto.
  - split.
    + intros [[[H _] _] _]. discriminate.
    + intros [[y' [Hy _]] _]. discriminate.
Qed.

(** ** Filtered view *)

(** C1: the filtered view of a loaded dataset holds exactly the rows whose
    Year lies in [low, high], whose Platform is the selected platform and
    whose Genre is the selected genre, and no row label occurs twice: every
    matching row appears exactly once.  This holds for every filter state,
    the valid ones in particular. *)
Theorem filtered_df_exact (rows : list Row) (yr : Z * Z) (p g : string) :
  (forall i r,
      In (i, r) (filtered_df (read_csv rows) yr (Some p) (Some g)) <->
      nth_error rows i = Some r /\ matches yr p g r) /\
  NoDup (index (filtered_df (read_csv rows) yr (Some p) (Some g))).
Proof.
  rewrite filtered_df_filter. split.
  - intros i r. rewrite filter_In, In_read_csv, row_selected_matches.
    reflexivity.
  - apply NoDup_index_filter. rewrite index_read_csv. apply seq_NoDup.
Qed.

(** ** Insertion sort *)

Section InsertionSort.

Context {A : Type} (stop leb : A -> A -> bool).
Hypothesis stop_le : forall x y, stop x y = true -> leb x y = true.
Hypothesis pass_le : forall x y, stop x y = false -> leb y x = true.
Hypothesis leb_trans : transitive leb.

Lemma insert_by_perm x l : Permutation (insert_by stop x l) (x :: l).
Proof.
  induction l as [|y l IH]; simpl.
  - apply Permutation_refl.
  - destruct (stop x y).
    + apply Permutation_refl.
    + apply perm_trans with (y :: x :: l).
      * apply perm_skip, IH.
      * apply perm_swap.
Qed.

Lemma isort_by_perm l : Permutation (isort_by stop l) l.
Proof.
  induction l as [|x l IH]; simpl.
  - apply perm_nil.
  - apply perm_trans with (x :: isort_by stop l).
    + apply insert_by_perm.
    + apply perm_skip, IH.
Qed.

Lemma insert_by_sorted x l :
  StronglySorted (fun a b => leb a b = true) l ->
  StronglySorted (fun a b => leb a b = true) (insert_by stop x l).
Proof.
  induction l as [|y l IH]; simpl; intros Hs.
  - constructor; constructor.
  - inversion Hs as [|? ? Hl Hy]; subst.
    destruct (stop x y) eqn:E.
    + constructor; [exact Hs|]. constructor.
      * apply stop_le, E.
      * eapply Forall_impl; [|exact Hy]. intros b Hb; simpl in Hb.
        eapply leb_trans; [apply stop_le, E | exact Hb].
    + constructor; [apply IH, Hl|].
      eapply Permutation_Forall.
      * apply Permutation_sym, insert_by_perm.
      * constructor; [apply pass_le, E | exact Hy].
Qed.

Lemma isort_by_sorted l :
  StronglySorted (fun a b => leb a b = true) (isort_by stop l).
Proof.
  induction l as [|x l IH]; simpl.
  - constructor.
  - apply insert_by_sorted, IH.
Qed.

End InsertionSort.

(** Python's [sorted] returns its argument in order. *)
Lemma sorted_perm {A : Type} (leb : A -> A -> bool) l :
  Permutation (sorted leb l) l.
Proof. apply isort_by_perm. Qed.

Lemma sorted_sorted {A : Type} (leb : A -> A -> bool) l :
  total leb -> transitive leb ->
  StronglySorted (fun a b => leb a b = true) (sorted leb l).
Proof.
  intros Ht Htr. apply isort_by_sorted; auto.
  intros x y E. destruct (Ht x y) as [H|H]; [congruence | exact H].
Qed.

(** ** Taking rows by position *)

Lemma take_map {A B : Type} (f : A -> B) idx (l : list A) :
  take idx (map f l) = map f (take idx l).
Proof.
  unfold take. induction idx as [|i idx IH]; simpl.
  - reflexivity.
  - rewrite map_app, IH, nth_error_map.
    destruct (nth_error l i); reflexivity.
Qed.

Lemma take_seq {A : Type} (pre l : list A) :
  take (seq (length pre) (length l)) (pre ++ l) = l.
Proof.
  unfold take. revert pre. induction l as [|x l IH]; intros pre; simpl.
  - reflexivity.
  - rewrite nth_error_app2, Nat.sub_diag by lia. simpl. f_equal.
    specialize (IH (pre ++ [x])).
    rewrite length_app, Nat.add_1_r, <- app_assoc in IH. exact IH.
Qed.

Lemma take_perm {A : Type} idx (l : list A) :
  Permutation idx (seq 0 (length l)) -> Permutation (take idx l) l.
Proof.
  intros H. apply perm_trans with (take (seq 0 (length l)) l).
  - unfold take. apply Permutation_flat_map, H.
  - pose proof (take_seq [] l) as E. simpl in E. rewrite E.
    apply Permutation_refl.
Qed.

Lemma take_pairs {A : Type} (keys : list A) (ps : list (nat * A)) :
  (forall i k, In (i, k) ps -> nth_error keys i = Some k) ->
  take (map fst ps) keys = map snd ps.
Proof.
  unfold take. induction ps as [|[i k] ps IH]; simpl; intros H.
  - reflexivity.
  - rewrite (H i k) by auto. simpl. f_equal. apply IH.
    intros j k' Hin. apply H. auto.
Qed.

Lemma map_fst_combine_seq {A : Type} (l : list A) s :
  map fst (combine (seq s (length l)) l) = seq s (length l).
Proof.
  revert s. induction l as [|x l IH]; intros s; simpl.
  - reflexivity.
  - f_equal. apply IH.
Qed.

Lemma StronglySorted_map {A B : Type} (f : A -> B) (R : B -> B -> Prop) l :
  StronglySorted (fun a b => R (f a) (f b)) l <-> StronglySorted R (map f l).
Proof.
  induction l as [|x l IH]; simpl.
  - split; constructor.
  - split; intros H; inversion H; subst; constructor;
      try (apply IH; assumption).
    + apply Forall_map. assumption.
    + apply Forall_map. assumption.
Qed.

Lemma StronglySorted_impl {A : Type} (R R' : A -> A -> Prop) l :
  (forall a b, R a b -> R' a b) -> StronglySorted R l -> StronglySorted R' l.
Proof.
  intros HR H. induction H as [|a l Hs IH Hf]; constructor; auto.
  eapply Forall_impl; [|exact Hf]. intros b. apply HR.
Qed.

(** ** The model sort meets numpy's guarantee *)

Section ArgsortBy.

Context {K : Type} (stop leb : K -> K -> bool).
Hypothesis stop_le : forall x y, stop x y = true -> leb x y = true.
Hypothesis pass_le : forall x y, stop x y = false -> leb y x = true.
Hypothesis leb_trans : transitive leb.

Lemma argsort_by_perm keys :
  Permutation (argsort_by stop keys) (seq 0 (length keys)).
Proof.
  unfold argsort_by.
  rewrite <- (map_fst_combine_seq keys 0) at 2.
  apply Permutation_map, isort_by_perm.
Qed.

Lemma argsort_by_sorted keys :
  StronglySorted (fun a b => leb a b = true)
                 (take (argsort_by stop keys) keys).
Proof.
  unfold argsort_by. rewrite take_pairs.
  - apply StronglySorted_map.
    apply (isort_by_sorted (fun a b : nat * K => stop (snd a) (snd b))
                           (fun a b : nat * K => leb (snd a) (snd b))).
    + intros x y. apply stop_le.
    + intros x y. apply pass_le.
    + intros a b c. apply leb_trans.
  - intros i k Hin.
    eapply Permutation_in in Hin; [|apply isort_by_perm].
    apply In_combine_seq in Hin. rewrite Nat.sub_0_r in Hin. tauto.
Qed.

End ArgsortBy.

Lemma stable_argsort_sorted K (leb : K -> K -> bool) keys :
  total leb -> transitive leb ->
  StronglySorted (fun a b => leb a b = true)
                 (take (stable_argsort K leb keys) keys).
Proof.
  intros Ht Htr. apply argsort_by_sorted; auto.
  intros x y E. destruct (Ht x y) as [H|H]; [congruence | exact H].
Qed.

(** A sort that keeps equal keys in place. *)
Definition stable_kind : NumpySort :=
  Build_NumpySort stable_argsort
    (fun K leb keys => argsort_by_perm leb keys)
    stable_argsort_sorted.

(** ** Sorting with numpy's default sort *)

Section SortFacts.

Context {np : NumpySort}.

Lemma sort_values_desc_perm {A K : Type} (leb : K -> K -> bool)
    (by_ : A -> K) (l : list A) :
  Permutation (sort_values_desc leb by_ l) l.
Proof.
  unfold sort_values_desc. apply take_perm.
  rewrite <- (length_map by_ l). apply argsort_perm.
Qed.

Lemma sort_values_desc_sorted {A K : Type} (leb : K -> K -> bool)
    (by_ : A -> K) (l : list A) :
  total leb -> transitive leb ->
  StronglySorted (fun a b => leb (by_ b) (by_ a) = true)
                 (sort_values_desc leb by_ l).
Proof.
  intros Ht Htr. unfold sort_values_desc.
  apply (StronglySorted_map by_ (fun a b => leb b a = true)).
  rewrite <- take_map.
  apply (argsort_sorted K (fun a b => leb b a)).
  - intros a b. destruct (Ht a b); auto.
  - intros a b c Hab Hbc. apply (Htr c b a); assumption.
Qed.

Lemma sort_index_perm {A : Type} (s : list (Z * A)) :
  Permutation (sort_index s) s.
Proof.
  unfold sort_index. apply take_perm.
  rewrite <- (length_map fst s). apply argsort_perm.
Qed.

Lemma sort_index_sorted {A : Type} (s : list (Z * A)) :
  StronglySorted (fun a b => fst a <= fst b) (sort_index s).
Proof.
  unfold sort_index.
  apply (StronglySorted_map fst (fun a b => a <= b)).
  rewrite <- take_map.
  eapply StronglySorted_map with (f := fun z : Z => z).
  rewrite map_id.
  assert (H : StronglySorted (fun a b => Z.leb a b = true)
                (take (argsort Z Z.leb (map fst s)) (map fst s))).
  { apply argsort_sorted.
    - intros a b. rewrite !Z.leb_le. lia.
    - intros a b c. rewrite !Z.leb_le. lia. }
  eapply StronglySorted_impl; [|exact H].
  intros a b Hab. apply Z.leb_le, Hab.
Qed.

End SortFacts.

Lemma Qle_bool_total : total Qle_bool.
Proof.
  intros a b. rewrite !Qle_bool_iff.
  destruct (Qlt_le_dec a b) as [H|H]; [left; apply Qlt_le_weak, H | right; exact H].
Qed.

Lemma Qle_bool_transitive : transitive Qle_bool.
Proof.
  intros a b c. rewrite !Qle_bool_iff. apply Qle_trans.
Qed.

Lemma StronglySorted_firstn {A : Type} (R : A -> A -> Prop) n l :
  StronglySorted R l -> StronglySorted R (firstn n l).
Proof.
  revert n. induction l as [|x l IH]; intros [|n] H; simpl; try constructor.
  - apply IH. inversion H; assumption.
  - inversion H as [|? ? _ Hf]; subst.
    rewrite Forall_forall in *. intros y Hy. apply Hf.
    rewrite <- (firstn_skipn n l). apply in_or_app. auto.
Qed.

Lemma StronglySorted_cross {A : Type} (R : A -> A -> Prop) l1 l2 :
  StronglySorted R (l1 ++ l2) ->
  forall a b, In a l1 -> In b l2 -> R a b.
Proof.
  induction l1 as [|x l1 IH]; simpl; intros H a b Ha Hb.
  - contradiction.
  - inversion H as [|? ? Hs Hf]; subst. destruct Ha as [<-|Ha].
    + rewrite Forall_forall in Hf. apply Hf, in_or_app. auto.
    + eapply IH; eauto.
Qed.

(** ** Top 10 games *)

(** X21: the top-10 frame has at most 10 rows, as many as the view has
    when that is fewer; it is sorted non-increasing by Global_Sales; its
    rows are rows of the view, each taken once, and no row left out sells
    more than a row taken. *)
Theorem top_games_sorted (np : NumpySort) (view : DataFrame) :
  length (top_games view) = Nat.min 10 (length view) /\
  non_increasing (top_games view) /\
  exists rest,
    Permutation (top_games view ++ rest) view /\
    forall a b, In a (top_games view) -> In b rest ->
                (Global_Sales (snd b) <= Global_Sales (snd a))%Q.
Proof.
  unfold top_games, head, non_increasing.
  set (by_ := fun ir : nat * Row => Global_Sales (snd ir)).
  pose proof (sort_values_desc_perm Qle_bool by_ view) as Hp.
  pose proof (sort_values_desc_sorted Qle_bool by_ view
                Qle_bool_total Qle_bool_transitive) as Hs.
  assert (Hs' : StronglySorted (fun a b => (by_ b <= by_ a)%Q)
                  (sort_values_desc Qle_bool by_ view)).
  { eapply StronglySorted_impl; [|exact Hs].
    intros a b Hab. apply Qle_bool_iff, Hab. }
  split; [|split].
  - rewrite length_firstn. f_equal. apply Permutation_length, Hp.
  - apply StronglySorted_firstn, Hs'.
  - exists (skipn 10 (sort_values_desc Qle_bool by_ view)). split.
    + rewrite firstn_skipn. exact Hp.
    + apply (StronglySorted_cross (fun a b => (by_ b <= by_ a)%Q)).
      rewrite firstn_skipn. exact Hs'.
Qed.

(** ** Distinct values *)

Section Unique.

Context {A : Type} (eqb : A -> A -> bool).
Hypothesis eqb_spec : forall a b, eqb a b = true <-> a = b.

Let visit (seen : list A) (v : A) : list A :=
  if existsb (eqb v) seen then seen else seen ++ [v].

Lemma existsb_eqb v seen : existsb (eqb v) seen = true <-> In v seen.
Proof.
  rewrite existsb_exists. split.
  - intros [x [Hin E]]. apply eqb_spec in E. subst. exact Hin.
  - intros Hin. exists v. split; [exact Hin | apply eqb_spec; reflexivity].
Qed.

Lemma unique_from_In l : forall seen x,
  In x (fold_left visit l seen) <-> In x seen \/ In x l.
Proof.
  induction l as [|v l IH]; intros seen x; simpl.
  - tauto.
  - rewrite IH. unfold visit.
    destruct (existsb (eqb v) seen) eqn:E.
    + apply existsb_eqb in E. split; [tauto|].
      intros [H|[<-|H]]; auto.
    + rewrite in_app_iff. simpl. tauto.
Qed.

Lemma unique_from_NoDup l : forall seen,
  NoDup seen -> NoDup (fold_left visit l seen).
Proof.
  induction l as [|v l IH]; intros seen H; simpl.
  - exact H.
  - apply IH. unfold visit.
    destruct (existsb (eqb v) seen) eqn:E; [exact H|].
    apply NoDup_app; [exact H | repeat constructor; simpl; tauto |].
    intros a Ha [<-|[]].
    apply existsb_eqb in Ha. congruence.
Qed.

Lemma unique_In l x : In x (unique eqb l) <-> In x l.
Proof.
  unfold unique. fold visit. rewrite unique_from_In. simpl. tauto.
Qed.

Lemma unique_NoDup l : NoDup (unique eqb l).
Proof.
  unfold unique. fold visit. apply unique_from_NoDup. constructor.
Qed.

End Unique.

(** ** Releases per year *)

Lemma In_dropna_Year view y :
  In y (dropna (col Year view)) <->
  exists ir, In ir view /\ Year (snd ir) = Some y.
Proof.
  unfold dropna, col. rewrite in_flat_map. split.
  - intros [v [Hv Hy]]. apply in_map_iff in Hv as [ir [E Hin]].
    exists ir. split; [exact Hin|]. rewrite E.
    destruct v; simpl in Hy; [|contradiction].
    destruct Hy as [->|[]]. reflexivity.
  - intros [ir [Hin E]]. exists (Some y). split.
    + apply in_map_iff. exists ir. auto.
    + simpl. auto.
Qed.

Lemma count_dropna_Year view y :
  count_occ Z.eq_dec (dropna (col Year view)) y = year_count view y.
Proof.
  unfold year_count, dropna, col.
  induction view as [|ir view IH]; simpl.
  - reflexivity.
  - destruct (Year (snd ir)) as [y'|]; simpl; [|exact IH].
    destruct (Z.eq_dec y' y) as [->|Hne].
    + rewrite Z.eqb_refl. simpl. f_equal. exact IH.
    + apply Z.eqb_neq in Hne. rewrite Hne. exact IH.
Qed.

Lemma strictly_sorted {A : Type} (l : list (Z * A)) :
  StronglySorted (fun a b => fst a <= fst b) l -> NoDup (map fst l) ->
  StronglySorted (fun a b => fst a < fst b) l.
Proof.
  induction 1 as [|a l Hs IH Hf]; simpl; intros Hnd.
  - constructor.
  - inversion Hnd as [|? ? Hnotin Hnd']; subst.
    constructor; [auto|].
    rewrite Forall_forall in *. intros b Hb.
    specialize (Hf b Hb).
    assert (fst a <> fst b).
    { intros E. apply Hnotin. rewrite E. apply in_map, Hb. }
    lia.
Qed.

(** C8: the per-year frame has one entry for each Year that occurs in the
    view and no other; the entry's count is the number of rows of the view
    with that Year; the entries stand in strictly ascending Year order, so
    no Year has two entries. *)
Theorem games_year_counts (np : NumpySort) (view : DataFrame) :
  (forall y c,
      In (y, c) (games_year view) <->
      (exists ir, In ir view /\ Year (snd ir) = Some y) /\
      c = year_count view y) /\
  StronglySorted (fun a b => fst a < fst b) (games_year view).
Proof.
  unfold games_year, value_counts.
  set (vals := dropna (col Year view)).
  set (counts := map (fun v => (v, count_occ Z.eq_dec vals v))
                     (unique Z.eqb vals)).
  assert (Hp : Permutation
                 (sort_index (sort_values_desc Nat.leb snd counts)) counts).
  { eapply perm_trans; [apply sort_index_perm | apply sort_values_desc_perm]. }
  split.
  - intros y c. split.
    + intros Hin. apply (Permutation_in _ Hp) in Hin.
      apply in_map_iff in Hin as [v [E Hv]]. inversion E; subst.
      apply (proj1 (unique_In Z.eqb Z.eqb_eq vals y)) in Hv.
      split; [apply In_dropna_Year, Hv | apply count_dropna_Year].
    + intros [Hy ->]. apply (Permutation_in _ (Permutation_sym Hp)).
      apply in_map_iff. exists y. split.
      * f_equal. apply count_dropna_Year.
      * apply (proj2 (unique_In Z.eqb Z.eqb_eq vals y)), In_dropna_Year, Hy.
  - apply strictly_sorted; [apply sort_index_sorted|].
    apply (Permutation_NoDup (l := map fst counts)).
    + apply Permutation_map, Permutation_sym, Hp.
    + unfold counts. rewrite map_map. simpl. rewrite map_id.
      apply (unique_NoDup Z.eqb Z.eqb_eq).
Qed.

Lemma forget_stale_ok df st :
  (forall s, st_platform st = Some s ->
             sel_options s = platforms df /\
             (sel_index s < length (sel_options s))%nat) ->
  (forall s, st_genre st = Some s ->
             (sel_index s < length (sel_options s))%nat) ->
  session_ok df (forget_stale df st).
Proof.
  intros Hp Hg. split; simpl.
  - exact Hp.
  - intros s. destruct (st_genre st) as [s'|] eqn:E; [|discriminate].
    destruct (list_eq_dec string_dec (sel_options s')
                          (displayed_genres df st)) as [Heq|]; [|discriminate].
    intros H. inversion H; subst. split; [exact Heq | apply Hg; reflexivity].
Qed.

Lemma reachable_ok df st : reachable df st -> session_ok df st.
Proof.
  induction 1 as [|st ev Hr [IHp IHg]].
  - split; simpl; discriminate.
  - unfold step. apply forget_stale_ok.
    + destruct ev as [lo hi|i|i]; simpl.
      * destruct (lo <=? hi); exact IHp.
      * destruct (i <? length (platforms df))%nat eqn:E; [|exact IHp].
        simpl. intros s H. inversion H; subst; simpl.
        split; [reflexivity | apply Nat.ltb_lt, E].
      * destruct (i <? length (displayed_genres df st))%nat; exact IHp.
    + destruct ev as [lo hi|i|i]; simpl.
      * destruct (lo <=? hi); simpl; intros s H; apply IHg, H.
      * destruct (i <? length (platforms df))%nat; simpl;
          intros s H; apply IHg, H.
      * destruct (i <? length (displayed_genres df st))%nat eqn:E;
          simpl; intros s H; [|apply IHg, H].
        inversion H; subst; simpl. apply Nat.ltb_lt, E.
Qed.

(** ** Selectboxes *)

Lemma selectbox_In st options v :
  selectbox st options = Some v -> In v options.
Proof. unfold selectbox. apply nth_error_In. Qed.

Lemma selectbox_fresh options : selectbox None options = hd_error options.
Proof. destruct options; reflexivity. Qed.

Lemma selectbox_some st options :
  options <> [] ->
  (forall s, st = Some s -> sel_options s = options ->
             (sel_index s < length (sel_options s))%nat) ->
  exists v, selectbox st options = Some v.
Proof.
  intros Hne Hidx. unfold selectbox.
  assert (H0 : exists v, nth_error options 0 = Some v).
  { destruct options as [|v l]; [contradiction | exists v; reflexivity]. }
  destruct st as [s|]; [|exact H0].
  destruct (list_eq_dec string_dec (sel_options s) options) as [E|]; [|exact H0].
  specialize (Hidx s eq_refl E). rewrite E in Hidx.
  destruct (nth_error options (sel_index s)) eqn:N; [eauto|].
  apply nth_error_None in N. lia.
Qed.

(** ** The platform-only subset and the genre domain *)

Lemma pie_df_filter df p :
  pie_df df (Some p) =
  filter (fun ir => String.eqb (Platform (snd ir)) p) df.
Proof.
  unfold pie_df, eq_scalar, col. rewrite map_map.
  apply getitem_mask_map.
Qed.

Lemma In_genres df p g :
  In g (genres df (Some p)) <->
  exists ir, In ir df /\ Platform (snd ir) = p /\ Genre (snd ir) = g.
Proof.
  unfold genres. fold (pie_df df (Some p)).
  rewrite (unique_In String.eqb String.eqb_eq), pie_df_filter.
  unfold col. rewrite in_map_iff. split.
  - intros [ir [E Hin]]. apply filter_In in Hin as [Hin Hp].
    apply String.eqb_eq in Hp. eauto.
  - intros [ir [Hin [Hp E]]]. exists ir. split; [exact E|].
    apply filter_In. split; [exact Hin | apply String.eqb_eq, Hp].
Qed.

Lemma In_platforms df p :
  In p (platforms df) <-> exists ir, In ir df /\ Platform (snd ir) = p.
Proof.
  unfold platforms. split.
  - intros H. apply (Permutation_in _ (sorted_perm String.leb _)) in H.
    apply (proj1 (unique_In String.eqb String.eqb_eq _ _)) in H.
    unfold col in H. apply in_map_iff in H as [ir [E Hin]]. eauto.
  - intros [ir [Hin E]].
    apply (Permutation_in _ (Permutation_sym (sorted_perm String.leb _))).
    apply (proj2 (unique_In String.eqb String.eqb_eq _ _)).
    unfold col. apply in_map_iff. eauto.
Qed.

Lemma In_displayed_genres df st p g :
  selected_platform df st = Some p ->
  In g (displayed_genres df st) <-> In g (genres df (Some p)).
Proof.
  intros E. unfold displayed_genres. rewrite E. split; intros H.
  - apply (Permutation_in _ (sorted_perm String.leb _)), H.
  - apply (Permutation_in _ (Permutation_sym (sorted_perm String.leb _))), H.
Qed.


(** ** The order of strings *)

Lemma ascii_compare_refl (c : ascii) : Ascii.compare c c = Eq.
Proof. unfold Ascii.compare. apply N.compare_refl. Qed.

Lemma string_compare_refl (s : string) : String.compare s s = Eq.
Proof.
  induction s as [|c s IH]; simpl.
  - reflexivity.
  - rewrite ascii_compare_refl. exact IH.
Qed.

Lemma string_compare_lt_trans : forall a b c : string,
  String.compare a b = Lt -> String.compare b c = Lt ->
  String.compare a c = Lt.
Proof.
  induction a as [|x a IH]; intros [|y b] [|z c]; simpl; try congruence.
  destruct (Ascii.compare x y) eqn:Exy; try discriminate;
    destruct (Ascii.compare y z) eqn:Eyz; try discriminate; intros H1 H2.
  - apply Ascii.compare_eq_iff in Exy, Eyz. subst.
    rewrite ascii_compare_refl. eapply IH; eassumption.
  - apply Ascii.compare_eq_iff in Exy. subst. rewrite Eyz. reflexivity.
  - apply Ascii.compare_eq_iff in Eyz. subst. rewrite Exy. reflexivity.
  - unfold Ascii.compare in *. rewrite N.compare_lt_iff in Exy, Eyz.
    assert (E : (N_of_ascii x ?= N_of_ascii z)%N = Lt).
    { apply N.compare_lt_iff. lia. }
    rewrite E. reflexivity.
Qed.

Lemma string_leb_cases a b :
  String.leb a b = true <-> String.compare a b = Lt \/ a = b.
Proof.
  unfold String.leb. split.
  - destruct (String.compare a b) eqn:E; try discriminate; intros _.
    + right. apply String.compare_eq_iff, E.
    + left. reflexivity.
  - intros [H| ->].
    + rewrite H. reflexivity.
    + rewrite string_compare_refl. reflexivity.
Qed.

Lemma string_leb_total : total String.leb.
Proof. intros a b. apply String.leb_total. Qed.

Lemma string_leb_transitive : transitive String.leb.
Proof.
  intros a b c. rewrite !string_leb_cases.
  intros [H1| ->] [H2| ->]; auto.
  left. eapply string_compare_lt_trans; eassumption.
Qed.

(** C5: when the user selects another platform and the genre selected
    before is not in the genre domain of the new platform, the run that
    follows selects the first genre of the new domain in sorted order: the
    head of the sorted option list, a member of the domain that no member
    precedes. *)
Theorem genre_resets_to_first (df : DataFrame) (st : SessionState) (i : nat)
    (g_old p' : string) :
  reachable df st ->
  selected_genre df st = Some g_old ->
  selected_platform df (step df st (SetPlatform i)) = Some p' ->
  ~ In g_old (genres df (Some p')) ->
  exists g,
    selected_genre df (step df st (SetPlatform i)) = Some g /\
    hd_error (sorted String.leb (genres df (Some p'))) = Some g /\
    In g (genres df (Some p')) /\
    forall g', In g' (genres df (Some p')) -> String.leb g g' = true.
Proof.
  intros Hr Hold Hp' Hnot.
  destruct (reachable_ok df st Hr) as [_ Hg].
  set (st1 := on_event df st (SetPlatform i)) in *.
  assert (Hg1 : st_genre st1 = st_genre st).
  { unfold st1. simpl. destruct (i <? length (platforms df))%nat; reflexivity. }
  assert (Hd : displayed_genres df (step df st (SetPlatform i)) =
               sorted String.leb (genres df (Some p'))).
  { unfold displayed_genres. rewrite Hp'. reflexivity. }
  assert (Hd1 : displayed_genres df st1 =
                sorted String.leb (genres df (Some p'))).
  { exact Hd. }
  assert (Hnone : st_genre (step df st (SetPlatform i)) = None).
  { unfold step. fold st1. simpl. rewrite Hg1.
    destruct (st_genre st) as [s|] eqn:Es; [|reflexivity].
    destruct (list_eq_dec string_dec (sel_options s)
                          (displayed_genres df st1)) as [E|]; [|reflexivity].
    exfalso. apply Hnot.
    destruct (Hg s eq_refl) as [Hopt _].
    unfold selected_genre in Hold. fold (displayed_genres df st) in Hold.
    rewrite Es in Hold. apply selectbox_In in Hold.
    rewrite <- Hopt, E, Hd1 in Hold.
    apply (Permutation_in _ (sorted_perm String.leb _)), Hold. }
  assert (Hsel : selected_genre df (step df st (SetPlatform i)) =
                 hd_error (sorted String.leb (genres df (Some p')))).
  { unfold selected_genre.
    fold (displayed_genres df (step df st (SetPlatform i))).
    rewrite Hnone, Hd. apply selectbox_fresh. }
  pose proof (sorted_perm String.leb (genres df (Some p'))) as Hperm.
  pose proof (sorted_sorted String.leb (genres df (Some p'))
                string_leb_total string_leb_transitive) as Hsorted.
  destruct (sorted String.leb (genres df (Some p'))) as [|g rest] eqn:Eo.
  - exfalso.
    apply selectbox_In, In_platforms in Hp' as [ir [Hin Hpl]].
    assert (H : In (Genre (snd ir)) (genres df (Some p'))).
    { apply In_genres. eauto. }
    apply (Permutation_in _ (Permutation_sym Hperm)) in H. contradiction.
  - exists g. split; [exact Hsel|]. split; [reflexivity|]. split.
    + apply (Permutation_in _ Hperm). simpl. auto.
    + intros g' Hin'. apply (Permutation_in _ (Permutation_sym Hperm)) in Hin'.
      inversion Hsorted as [|? ? _ Hf]; subst.
      destruct Hin' as [<-|Hin'].
      * apply string_leb_cases. auto.
      * rewrite Forall_forall in Hf. apply Hf, Hin'.
Qed.

(** ** Genre share and box plot *)

Lemma pie_df_filter_opt df sp :
  pie_df df sp =
  filter (fun ir => match sp with
                    | Some k => String.eqb (Platform (snd ir)) k
                    | None => false
                    end) df.
Proof.
  unfold pie_df, eq_scalar, col. rewrite map_map.
  apply getitem_mask_map.
Qed.

Section ScriptFacts.

Context {np : NumpySort}.

(** What a completed run returns. *)
Lemma script_ok rows st d :
  script rows st = Ok d ->
  let df := read_csv rows in
  let sp := selected_platform df st in
  let fdf := filtered_df df (slider (st_year_range st) (1980, 2020)) sp
                         (selected_genre df st) in
  d = mkDashboard (slider (st_year_range st) (1980, 2020)) sp
        (selected_genre df st) fdf
        (total_global_sales fdf) (total_games fdf) (d_top_publisher d)
        (top_games fdf) (games_year fdf)
        (fig3 (pie_df df sp)) (fig4 (pie_df df sp))
        (corr fdf) (top_na fdf) (map_data fdf) (table fdf).
Proof.
  unfold script. destruct (year_bounds (read_csv rows)); simpl; [|discriminate].
  destruct (top_publisher _); simpl; [|discriminate].
  intros H. inversion H. reflexivity.
Qed.

End ScriptFacts.

(** C7: in every run that completes, the platform of the dashboard is
    the value the Platform selectbox returned, and the genre-share pie and
    the box plot are both drawn from the same frame, which holds exactly the
    rows of the dataset with that platform, each once, whatever their Year
    and Genre: the year range and the selected genre do not restrict it. *)
Theorem panels_use_platform_subset (np : NumpySort) (rows : list Row)
    (st : SessionState) (d : Dashboard) :
  script rows st = Ok d ->
  d_selected_platform d = selected_platform (read_csv rows) st /\
  chart_data (d_fig4 d) = chart_data (d_fig3 d) /\
  (forall i r,
      In (i, r) (chart_data (d_fig3 d)) <->
      nth_error rows i = Some r /\
      Some (Platform r) = selected_platform (read_csv rows) st) /\
  NoDup (index (chart_data (d_fig3 d))).
Proof.
  intros H. apply script_ok in H. simpl in H. rewrite H. simpl.
  split; [reflexivity|].
  split; [reflexivity|]. rewrite pie_df_filter_opt. split.
  - intros i r. rewrite filter_In, In_read_csv. simpl.
    destruct (selected_platform (read_csv rows) st) as [p|].
    + rewrite String.eqb_eq. split.
      * intros [H1 H2]. split; [exact H1 | f_equal; exact H2].
      * intros [H1 H2]. split; [exact H1 | congruence].
    + split; intros [_ H2]; discriminate.
  - apply NoDup_index_filter. rewrite index_read_csv. apply seq_NoDup.
Qed.

(** ** Regional totals *)

Lemma fold_Qplus_acc l : forall a,
  (fold_left Qplus l a == a + fold_left Qplus l 0)%Q.
Proof.
  induction l as [|x l IH]; intros a; simpl.
  - ring.
  - rewrite (IH (a + x)%Q), (IH (0 + x)%Q). ring.
Qed.

Lemma sum_column_total (c : Row -> Q) (view : DataFrame) :
  (sum (col c view) == column_total c view)%Q.
Proof.
  unfold sum, col. induction view as [|ir view IH]; simpl.
  - reflexivity.
  - rewrite fold_Qplus_acc, IH. ring.
Qed.

(** C9: for every view the map data has one point per region, North
    America, Europe, Japan and Other in this order; the sales of a point is
    the total over the rows of the view of NA_Sales, EU_Sales, JP_Sales and
    Other_Sales respectively; the coordinates of a point are constants that
    do not depend on the view. *)
Theorem map_data_region_totals (view : DataFrame) :
  map mp_Region (map_data view) =
    ["North America"; "Europe"; "Japan"; "Other"] /\
  Forall2 Qeq (map mp_Sales (map_data view))
    [ column_total NA_Sales view; column_total EU_Sales view;
      column_total JP_Sales view; column_total Other_Sales view ] /\
  map (fun pt => (mp_lat pt, mp_lon pt)) (map_data view) =
    [ (40.0, -100.0); (54.5, 15.3); (36.2, 138.2); (-8.8, 115.2) ]%Q.
Proof.
  assert (E : map_data view =
    [ mkPoint "North America" (sum (col NA_Sales view)) 40.0 (-100.0);
      mkPoint "Europe" (sum (col EU_Sales view)) 54.5 15.3;
      mkPoint "Japan" (sum (col JP_Sales view)) 36.2 138.2;
      mkPoint "Other" (sum (col Other_Sales view)) (-8.8) 115.2 ])
    by reflexivity.
  rewrite E. simpl. split; [reflexivity|]. split; [|reflexivity].
  repeat constructor; apply sum_column_total.
Qed.

(** ** Absent years *)

Lemma fold_min_spec l : forall y,
  In (fold_left Z.min l y) (y :: l) /\
  forall x, In x (y :: l) -> fold_left Z.min l y <= x.
Proof.
  induction l as [|z l IH]; intros y; simpl.
  - split; [auto|]. intros x [<-|[]]. lia.
  - destruct (IH (Z.min y z)) as [Hin Hle]. split.
    + destruct Hin as [E|Hin]; [|auto].
      rewrite <- E. destruct (Z.min_spec y z) as [[_ ->]|[_ ->]]; auto.
    + intros x Hx.
      assert (Hm : fold_left Z.min l (Z.min y z) <= Z.min y z).
      { apply Hle. simpl. auto. }
      destruct Hx as [<-|[<-|Hx]]; [lia | lia |].
      apply Hle. simpl. auto.
Qed.

Lemma fold_max_spec l : forall y,
  In (fold_left Z.max l y) (y :: l) /\
  forall x, In x (y :: l) -> x <= fold_left Z.max l y.
Proof.
  induction l as [|z l IH]; intros y; simpl.
  - split; [auto|]. intros x [<-|[]]. lia.
  - destruct (IH (Z.max y z)) as [Hin Hle]. split.
    + destruct Hin as [E|Hin]; [|auto].
      rewrite <- E. destruct (Z.max_spec y z) as [[_ ->]|[_ ->]]; auto.
    + intros x Hx.
      assert (Hm : Z.max y z <= fold_left Z.max l (Z.max y z)).
      { apply Hle. simpl. auto. }
      destruct Hx as [<-|[<-|Hx]]; [lia | lia |].
      apply Hle. simpl. auto.
Qed.

Lemma In_years df y :
  In y (years df) <-> exists ir, In ir df /\ Year (snd ir) = Some y.
Proof.
  unfold years. rewrite <- In_dropna_Year.
  rewrite <- (unique_In Z.eqb Z.eqb_eq (dropna (col Year df)) y).
  split; intros H.
  - apply (Permutation_in _ (sorted_perm Z.leb _)), H.
  - apply (Permutation_in _ (Permutation_sym (sorted_perm Z.leb _))), H.
Qed.

(** C10: whatever the year range, a row without a Year is never in the
    filtered view, although it is a row of the dataset; and when some row
    has a Year, the bounds handed to the year slider are the least and the
    greatest Year among the rows that have one. *)
Theorem absent_year_ignored (df : DataFrame) :
  (forall yr sp sg ir,
      In ir (filtered_df df yr sp sg) ->
      In ir df /\ Year (snd ir) <> None) /\
  (forall y0, has_year df y0 ->
      exists lo hi,
        year_bounds df = Ok (lo, hi) /\
        has_year df lo /\ has_year df hi /\
        forall y, has_year df y -> lo <= y <= hi).
Proof.
  split.
  - intros yr sp sg ir. rewrite filtered_df_filter, filter_In.
    intros [Hin Hsel]. split; [exact Hin|].
    unfold row_selected in Hsel. intros E. rewrite E in Hsel. discriminate.
  - intros y0 Hy0. apply In_years in Hy0.
    unfold year_bounds, py_min, py_max.
    destruct (years df) as [|y l] eqn:E; [contradiction|]. simpl.
    destruct (fold_min_spec l y) as [Hmin_in Hmin].
    destruct (fold_max_spec l y) as [Hmax_in Hmax].
    exists (fold_left Z.min l y), (fold_left Z.max l y).
    split; [reflexivity|].
    rewrite <- E in Hmin_in, Hmax_in.
    split; [apply In_years, Hmin_in|]. split; [apply In_years, Hmax_in|].
    intros x Hx. apply In_years in Hx. rewrite E in Hx. split; auto.
Qed.

(** ** Correlation matrix *)

Lemma Qmult_comm_eq (a b : Q) : (a * b)%Q = (b * a)%Q.
Proof.
  unfold Qmult. f_equal; [apply Z.mul_comm | apply Pos.mul_comm].
Qed.

Lemma combine_swap {A B C : Type} (f : B * A -> C) (xs : list A) (ys : list B) :
  map f (combine ys xs) = map (fun xy => f (snd xy, fst xy)) (combine xs ys).
Proof.
  revert ys. induction xs as [|x xs IH]; intros [|y ys]; simpl;
    try reflexivity.
  f_equal. apply IH.
Qed.

Lemma comoment_sym xs ys : comoment xs ys = comoment ys xs.
Proof.
  unfold comoment. rewrite (combine_swap _ xs ys). simpl.
  f_equal. apply map_ext. intros [x y]. simpl. apply Qmult_comm_eq.
Qed.

Lemma pearson_sym xs ys :
  length xs = length ys -> pearson xs ys = pearson ys xs.
Proof.
  intros E. unfold pearson.
  rewrite E, (comoment_sym xs ys),
    (Qmult_comm_eq (comoment xs xs) (comoment ys ys)).
  reflexivity.
Qed.

Lemma fold_Qplus_nonneg l : forall a,
  (forall x, In x l -> 0 <= x)%Q -> (a <= fold_left Qplus l a)%Q.
Proof.
  induction l as [|x l IH]; intros a H; simpl.
  - apply Qle_refl.
  - apply Qle_trans with (a + x)%Q.
    + rewrite <- (Qplus_0_r a) at 1. apply Qplus_le_r. apply H. simpl. auto.
    + apply IH. intros y Hy. apply H. simpl. auto.
Qed.

Lemma In_combine_self {A : Type} (xs : list A) a b :
  In (a, b) (combine xs xs) -> a = b.
Proof.
  induction xs as [|x xs IH]; simpl; [tauto|].
  intros [E|H]; [inversion E; reflexivity | auto].
Qed.

Lemma comoment_self_nonneg xs : (0 <= comoment xs xs)%Q.
Proof.
  unfold comoment, sum. apply fold_Qplus_nonneg.
  intros q Hq. apply in_map_iff in Hq as [[a b] [E Hin]].
  apply In_combine_self in Hin. subst. simpl.
  generalize (b - mean xs)%Q. intros q.
  unfold Qle, Qmult. simpl. rewrite Z.mul_1_r. apply Z.square_nonneg.
Qed.

Lemma Q2R_zero : Q2R 0 = 0%R.
Proof. unfold Q2R. simpl. lra. Qed.

Lemma pearson_self xs :
  ~ (comoment xs xs == 0)%Q -> pearson xs xs = Some 1%R.
Proof.
  intros Hnz. unfold pearson.
  destruct xs as [|x xs'] eqn:Exs.
  { exfalso. apply Hnz. reflexivity. }
  rewrite <- Exs in *. replace (length xs <? 1)%nat with false
    by (rewrite Exs; reflexivity).
  set (s := comoment xs xs) in *.
  destruct (Qeq_bool (s * s) 0) eqn:E.
  - exfalso. apply Qeq_bool_iff in E.
    apply Qmult_integral in E. tauto.
  - f_equal. rewrite Q2R_mult.
    assert (Hpos : (0 <= Q2R s)%R).
    { rewrite <- Q2R_zero. apply Qle_Rle, comoment_self_nonneg. }
    rewrite sqrt_square by exact Hpos.
    apply Rinv_r. intros E0. apply Hnz.
    apply eqR_Qeq. rewrite E0, Q2R_zero. reflexivity.
Qed.

Lemma pearson_defined xs ys :
  xs <> [] -> ~ (comoment xs xs == 0)%Q -> ~ (comoment ys ys == 0)%Q ->
  pearson xs ys <> None.
Proof.
  intros Hne Hx Hy. unfold pearson.
  destruct xs as [|x xs']; [contradiction|]. simpl length. simpl Nat.ltb.
  destruct (Qeq_bool _ 0) eqn:E; [|discriminate].
  apply Qeq_bool_iff, Qmult_integral in E. tauto.
Qed.

Lemma pearson_nan_left xs ys :
  (comoment xs xs == 0)%Q -> pearson xs ys = None.
Proof.
  intros H. unfold pearson. destruct (length xs <? 1)%nat; [reflexivity|].
  replace (Qeq_bool (comoment xs xs * comoment ys ys) 0) with true;
    [reflexivity|].
  symmetry. apply Qeq_bool_iff. rewrite H. ring.
Qed.

Lemma pearson_nan_right xs ys :
  (comoment ys ys == 0)%Q -> pearson xs ys = None.
Proof.
  intros H. unfold pearson. destruct (length xs <? 1)%nat; [reflexivity|].
  replace (Qeq_bool (comoment xs xs * comoment ys ys) 0) with true;
    [reflexivity|].
  symmetry. apply Qeq_bool_iff. rewrite H. ring.
Qed.

Lemma comoment_single x : (comoment [x] [x] == 0)%Q.
Proof. unfold comoment, mean, sum. simpl. field. Qed.

Lemma variance_zero xs :
  (2 <= length xs)%nat ->
  (variance xs == 0)%Q <-> (comoment xs xs == 0)%Q.
Proof.
  intros Hn. unfold variance.
  assert (Hd : ~ (inject_Z (Z.of_nat (length xs)) - 1 == 0)%Q).
  { unfold Qeq, Qminus, Qplus, Qopp, inject_Z. simpl. lia. }
  split; intros H.
  - rewrite <- (Qmult_div_r (comoment xs xs) _ Hd). 
    unfold Qdiv in *. rewrite H. ring.
  - unfold Qdiv. rewrite H. ring.
Qed.

Lemma corr_at_pearson view i j :
  (i < 5)%nat -> (j < 5)%nat ->
  corr_at (corr view) i j =
  pearson (col (sales_column i) view) (col (sales_column j) view).
Proof.
  intros Hi Hj. unfold corr_at, corr, sales_column, sales_columns.
  do 5 (destruct i as [|i]; [do 5 (destruct j as [|j]; [reflexivity|]); lia|]).
  lia.
Qed.

(** C6: on a view of at least two rows in which each of the five sales
    columns has a nonzero variance, every entry of the correlation matrix
    is a number, the matrix is symmetric and its diagonal is 1.  On a view
    of fewer than two rows every entry is NaN, and a column of zero variance
    makes the entries of its row and of its column NaN; [corr] returns the
    matrix in each case.  Coefficients are computed in exact arithmetic. *)
Theorem corr_symmetric_unit_diagonal (view : DataFrame) :
  ((2 <= length view)%nat ->
   (forall k, (k < 5)%nat ->
              ~ (variance (col (sales_column k) view) == 0)%Q) ->
   forall i j, (i < 5)%nat -> (j < 5)%nat ->
     corr_at (corr view) i j = corr_at (corr view) j i /\
     corr_at (corr view) i i = Some 1%R /\
     corr_at (corr view) i j <> None) /\
  ((length view < 2)%nat ->
   forall i j, (i < 5)%nat -> (j < 5)%nat -> corr_at (corr view) i j = None) /\
  ((2 <= length view)%nat ->
   forall i, (i < 5)%nat ->
     (variance (col (sales_column i) view) == 0)%Q ->
     forall j, (j < 5)%nat ->
       corr_at (corr view) i j = None /\ corr_at (corr view) j i = None).
Proof.
  assert (Hlen : forall c : Row -> Q, length (col c view) = length view).
  { intros c. unfold col. apply length_map. }
  split; [|split].
  - intros Hn Hvar i j Hi Hj.
    assert (Hnz : forall k, (k < 5)%nat ->
              ~ (comoment (col (sales_column k) view)
                          (col (sales_column k) view) == 0)%Q).
    { intros k Hk E. apply (Hvar k Hk). apply variance_zero; [|exact E].
      rewrite Hlen. exact Hn. }
    rewrite !corr_at_pearson by assumption. split; [|split].
    + apply pearson_sym. rewrite !Hlen. reflexivity.
    + apply pearson_self, Hnz, Hi.
    + apply pearson_defined; [|apply Hnz, Hi|apply Hnz, Hj].
      intros E. specialize (Hlen (sales_column i)). rewrite E in Hlen.
      simpl in Hlen. lia.
  - intros Hn i j Hi Hj. rewrite corr_at_pearson by assumption.
    destruct view as [|ir [|ir' view']]; simpl in Hn; try lia.
    + reflexivity.
    + apply pearson_nan_left. simpl. apply comoment_single.
  - intros Hn i Hi Hz j Hj. rewrite !corr_at_pearson by assumption.
    apply variance_zero in Hz; [|rewrite Hlen; exact Hn].
    split; [apply pearson_nan_left | apply pearson_nan_right]; exact Hz.
Qed.

(** ** Summary metrics on an empty view *)

Lemma top_publisher_empty :
  top_publisher [] =
  Raise (ValueError "attempt to get argmax of an empty sequence").
Proof. reflexivity. Qed.

(** C2: on an empty view the total is 0 and the count is 0, but the
    top-publisher metric does not return a sentinel.  On the sample data a
    fresh page selects NES and Platform; moving the year slider to
    1990-2000 leaves no row in the view, [idxmax] raises ValueError, and
    with it the whole run, under every sort. *)
Theorem empty_selection_raises :
  let df := read_csv sample_rows in
  let st := step df fresh_session (SetYearRange 1990 2000) in
  let view := filtered_df df (slider (st_year_range st) (1980, 2020))
                          (selected_platform df st) (selected_genre df st) in
  view = [] /\
  total_global_sales view = 0%Q /\
  total_games view = 0%nat /\
  top_publisher view =
    Raise (ValueError "attempt to get argmax of an empty sequence") /\
  forall np : NumpySort,
    script sample_rows st =
    Raise (ValueError "attempt to get argmax of an empty sequence").
Proof.
  repeat (split; [reflexivity|]). intros np. reflexivity.
Qed.

(** ** The scenarios of the specification *)

Example wii_default_genre :
  genres (read_csv wii_rows) (Some "Wii") = ["Sports"; "Racing"] /\
  displayed_genres (read_csv wii_rows) fresh_session = ["Racing"; "Sports"] /\
  selected_genre (read_csv wii_rows) fresh_session = Some "Racing".
Proof. split; [|split]; reflexivity. Qed.

Example wii_sports_view :
  let df := read_csv wii_rows in
  let st := step df fresh_session (SetGenre 1) in
  selected_genre df st = Some "Sports" /\
  index (filtered_df df (1980, 2020) (selected_platform df st)
                     (selected_genre df st)) = [0%nat; 2%nat] /\
  forall np : NumpySort,
    map (fun ir => Global_Sales (snd ir))
        (head 1 (sort_values_desc Qle_bool
                   (fun ir => Global_Sales (snd ir))
                   (filtered_df df (1980, 2020) (selected_platform df st)
                                (selected_genre df st)))) = [10%Q].
Proof.
  split; [reflexivity|]. split; [reflexivity|].
  intros np.
  match goal with |- context [sort_values_desc ?leb ?by_ ?l] =>
    pose proof (sort_values_desc_perm leb by_ l) as Hp;
    pose proof (sort_values_desc_sorted leb by_ l
                  Qle_bool_total Qle_bool_transitive) as Hs;
    destruct (sort_values_desc leb by_ l) as [|a [|b [|c t]]] eqn:E
  end; try (apply Permutation_length in Hp; simpl in Hp; discriminate).
  clear E. simpl.
  inversion Hs as [|? ? _ Hf]; subst. inversion Hf as [|? ? Hab _]; subst.
  assert (Ha : In a [a; b]) by (simpl; auto).
  assert (Hb : In b [a; b]) by (simpl; auto).
  apply (Permutation_in _ Hp) in Ha. apply (Permutation_in _ Hp) in Hb.
  assert (Hnd : a <> b).
  { intros ->. apply Permutation_sym in Hp.
    assert (N : NoDup [b; b]).
    { eapply Permutation_NoDup; [exact Hp|].
      vm_compute. repeat constructor; simpl; intuition discriminate. }
    inversion N as [|? ? Hn _]; subst. apply Hn. simpl. auto. }
  vm_compute in Ha, Hb.
  destruct Ha as [<-|[<-|[]]]; destruct Hb as [<-|[<-|[]]];
    try reflexivity; try (exfalso; apply Hnd; reflexivity).
  vm_compute in Hab. discriminate.
Qed.

Example absent_year_empties_view :
  let df := read_csv sample_rows in
  let st := step df fresh_session (SetPlatform 1) in
  selected_platform df st = Some "PS2" /\
  selected_genre df st = Some "Sports" /\
  index (pie_df df (selected_platform df st)) = [4%nat] /\
  filtered_df df (slider (st_year_range st) (1980, 2020))
              (selected_platform df st) (selected_genre df st) = [].
Proof. repeat (split; [reflexivity|]). reflexivity. Qed.

(** ** The theorems at the sample data *)


Lemma genre_resets_to_first_witness :
  let df := read_csv sample_rows in
  reachable df fresh_session /\
  selected_genre df fresh_session = Some "Platform" /\
  selected_platform df (step df fresh_session (SetPlatform 2)) = Some "Wii" /\
  ~ In "Platform" (genres df (Some "Wii")) /\
  exists g,
    selected_genre df (step df fresh_session (SetPlatform 2)) = Some g /\
    hd_error (sorted String.leb (genres df (Some "Wii"))) = Some g /\
    In g (genres df (Some "Wii")) /\
    forall g', In g' (genres df (Some "Wii")) -> String.leb g g' = true.
Proof.
  cbv zeta.
  assert (Hnot : ~ In "Platform" (genres (read_csv sample_rows) (Some "Wii"))).
  { vm_compute. intros [H|[H|[]]]; discriminate. }
  split; [apply reach_fresh|]. split; [reflexivity|].
  split; [reflexivity|]. split; [exact Hnot|].
  exact (genre_resets_to_first (read_csv sample_rows) fresh_session 2
           "Platform" "Wii" (reach_fresh _) eq_refl eq_refl Hnot).
Defined.

Lemma panels_use_platform_subset_witness :
  exists d,
    @script stable_kind sample_rows
            (step (read_csv sample_rows) fresh_session (SetPlatform 2)) = Ok d /\
    selected_platform (read_csv sample_rows)
      (step (read_csv sample_rows) fresh_session (SetPlatform 2)) = Some "Wii" /\
    index (d_filtered_df d) = [2%nat] /\
    index (chart_data (d_fig3 d)) = [0%nat; 2%nat] /\
    d_selected_platform d =
      selected_platform (read_csv sample_rows)
        (step (read_csv sample_rows) fresh_session (SetPlatform 2)) /\
    chart_data (d_fig4 d) = chart_data (d_fig3 d) /\
    (forall i r,
        In (i, r) (chart_data (d_fig3 d)) <->
        nth_error sample_rows i = Some r /\
        Some (Platform r) =
          selected_platform (read_csv sample_rows)
            (step (read_csv sample_rows) fresh_session (SetPlatform 2))) /\
    NoDup (index (chart_data (d_fig3 d))).
Proof.
  eexists. split; [reflexivity|]. split; [reflexivity|].
  split; [reflexivity|]. split; [reflexivity|].
  apply (panels_use_platform_subset stable_kind sample_rows
           (step (read_csv sample_rows) fresh_session (SetPlatform 2))).
  reflexivity.
Defined.

Lemma corr_symmetric_unit_diagonal_witness :
  let view := read_csv sample_rows in
  (2 <= length view)%nat /\
  (forall k, (k < 5)%nat ->
             ~ (variance (col (sales_column k) view) == 0)%Q) /\
  corr_at (corr view) 0 1 = corr_at (corr view) 1 0 /\
  corr_at (corr view) 0 0 = Some 1%R /\
  corr_at (corr view) 0 1 <> None.
Proof.
  cbv zeta.
  assert (Hn : (2 <= length (read_csv sample_rows))%nat) by (vm_compute; lia).
  assert (Hv : forall k, (k < 5)%nat ->
             ~ (variance (col (sales_column k) (read_csv sample_rows)) == 0)%Q).
  { intros k Hk.
    do 5 (destruct k as [|k]; [vm_compute; discriminate|]). lia. }
  split; [exact Hn|]. split; [exact Hv|].
  exact (proj1 (corr_symmetric_unit_diagonal (read_csv sample_rows))
               Hn Hv 0%nat 1%nat (le_S _ _ (le_S _ _ (le_S _ _ (le_S _ _ (le_n 1)))))
               (le_S _ _ (le_S _ _ (le_S _ _ (le_n 2))))).
Defined.

Lemma absent_year_ignored_witness :
  let df := read_csv sample_rows in
  In (4%nat, nth 4 sample_rows (mkRow "" "" None "" None 0 0 0 0 0)) df /\
  has_year df 2006 /\
  (forall yr sp sg ir,
      In ir (filtered_df df yr sp sg) ->
      In ir df /\ Year (snd ir) <> None) /\
  exists lo hi,
    year_bounds df = Ok (lo, hi) /\
    has_year df lo /\ has_year df hi /\
    forall y, has_year df y -> lo <= y <= hi.
Proof.
  cbv zeta.
  assert (Hy : has_year (read_csv sample_rows) 2006).
  { exists (0%nat, nth 0 sample_rows (mkRow "" "" None "" None 0 0 0 0 0)).
    split; [simpl; auto | reflexivity]. }
  split; [simpl; auto 10|]. split; [exact Hy|].
  split.
  - exact (proj1 (absent_year_ignored (read_csv sample_rows))).
  - exact (proj2 (absent_year_ignored (read_csv sample_rows)) 2006 Hy).
Defined.

(** * Further properties of the script *)

(** ** Option lists *)

Lemma StronglySorted_NoDup_strict {A : Type} (R : A -> A -> Prop) l :
  StronglySorted R l -> NoDup l ->
  StronglySorted (fun a b => R a b /\ a <> b) l.
Proof.
  induction 1 as [|a l Hs IH Hf]; intros Hnd.
  - constructor.
  - inversion Hnd as [|? ? Hnotin Hnd']; subst. constructor; [auto|].
    rewrite Forall_forall in *. intros b Hb. split; [apply Hf, Hb|].
    intros ->. contradiction.
Qed.

Lemma sorted_unique_strings (l : list string) :
  StronglySorted (fun a b => String.compare a b = Lt)
                 (sorted String.leb (unique String.eqb l)).
Proof.
  eapply StronglySorted_impl;
    [|apply StronglySorted_NoDup_strict;
      [apply (sorted_sorted String.leb _ string_leb_total
                            string_leb_transitive)|]].
  - intros a b [Hle Hne]. apply string_leb_cases in Hle.
    destruct Hle as [H|H]; [exact H | contradiction].
  - apply (Permutation_NoDup (l := unique String.eqb l)).
    + apply Permutation_sym, sorted_perm.
    + apply (unique_NoDup String.eqb String.eqb_eq).
Qed.

Lemma Z_leb_total : total Z.leb.
Proof. intros a b. rewrite !Z.leb_le. lia. Qed.

Lemma Z_leb_transitive : transitive Z.leb.
Proof. intros a b c. rewrite !Z.leb_le. lia. Qed.

(** X1: the options of the Platform selectbox are the platforms of the
    dataset, each once, in strictly ascending order of their names. *)
Theorem platforms_sorted_distinct (df : DataFrame) :
  StronglySorted (fun a b => String.compare a b = Lt) (platforms df) /\
  forall p, In p (platforms df) <-> has_key Platform df p.
Proof.
  split.
  - apply sorted_unique_strings.
  - intros p. apply In_platforms.
Qed.

(** X2: [years] holds the Year values that occur in the dataset, each
    once, in strictly ascending order; rows without a Year add
    nothing. *)
Theorem years_sorted_distinct (df : DataFrame) :
  StronglySorted Z.lt (years df) /\
  forall y, In y (years df) <-> has_year df y.
Proof.
  split; [|intros y; apply In_years].
  unfold years.
  eapply StronglySorted_impl;
    [|apply StronglySorted_NoDup_strict;
      [apply (sorted_sorted Z.leb _ Z_leb_total Z_leb_transitive)|]].
  - intros a b [Hle Hne]. apply Z.leb_le in Hle. lia.
  - apply (Permutation_NoDup (l := unique Z.eqb (dropna (col Year df)))).
    + apply Permutation_sym, sorted_perm.
    + apply (unique_NoDup Z.eqb Z.eqb_eq).
Qed.

(** X3: the bounds of the year slider cannot be computed, and [min]
    raises ValueError, exactly when no row of the dataset has a Year; an
    empty dataset is one such case. *)
Theorem year_bounds_raises_iff (df : DataFrame) :
  year_bounds df = Raise (ValueError "min() arg is an empty sequence") <->
  forall ir, In ir df -> Year (snd ir) = None.
Proof.
  unfold year_bounds, py_min, py_max.
  destruct (years df) as [|y l] eqn:E; simpl.
  - split; [|reflexivity]. intros _ ir Hin.
    destruct (Year (snd ir)) as [y|] eqn:Ey; [|reflexivity].
    assert (H : In y (years df)) by (apply In_years; exists ir; auto).
    rewrite E in H. contradiction.
  - split; [discriminate|]. intros Hnone. exfalso.
    assert (H : In y (years df)) by (rewrite E; simpl; auto).
    apply In_years in H as [ir [Hin Ey]].
    rewrite (Hnone ir Hin) in Ey. discriminate.
Qed.

(** ** Sums *)

Lemma sum_cons x l : (sum (x :: l) == x + sum l)%Q.
Proof. unfold sum. simpl. rewrite fold_Qplus_acc. ring. Qed.

(** ** Grouping *)

Lemma In_dropna {A : Type} (s : list (option A)) (a : A) :
  In a (dropna s) <-> In (Some a) s.
Proof.
  unfold dropna. rewrite in_flat_map. split.
  - intros [[v|] [Hin H]]; simpl in H; [|contradiction].
    destruct H as [->|[]]. exact Hin.
  - intros Hin. exists (Some a). simpl. auto.
Qed.

Lemma In_group_keys (key : Row -> option string) view k :
  In k (sorted String.leb (unique String.eqb (dropna (col key view)))) <->
  has_group key view k.
Proof.
  unfold has_group, col. split.
  - intros H. apply (Permutation_in _ (sorted_perm String.leb _)) in H.
    apply (proj1 (unique_In String.eqb String.eqb_eq _ _)) in H.
    apply In_dropna, in_map_iff in H as [ir [E Hin]]. eauto.
  - intros [ir [Hin E]].
    apply (Permutation_in _ (Permutation_sym (sorted_perm String.leb _))).
    apply (proj2 (unique_In String.eqb String.eqb_eq _ _)).
    apply In_dropna, in_map_iff. eauto.
Qed.

Lemma groupby_sum_keys key val view :
  map fst (groupby_sum key val view) =
  sorted String.leb (unique String.eqb (dropna (col key view))).
Proof.
  unfold groupby_sum. rewrite map_map. simpl. apply map_id.
Qed.

Lemma In_groupby_sum key val view k v :
  In (k, v) (groupby_sum key val view) ->
  has_group key view k /\ (v == group_total key val k view)%Q.
Proof.
  unfold groupby_sum. intros H. apply in_map_iff in H as [k' [E Hin]].
  inversion E; subst. split; [apply In_group_keys, Hin|].
  apply sum_column_total.
Qed.

Lemma groupby_sum_nil_iff key val view :
  groupby_sum key val view = [] <->
  forall ir, In ir view -> key (snd ir) = None.
Proof.
  split.
  - intros H ir Hin. destruct (key (snd ir)) as [k|] eqn:E; [|reflexivity].
    exfalso.
    assert (Hk : In k (map fst (groupby_sum key val view))).
    { rewrite groupby_sum_keys. apply In_group_keys. exists ir. auto. }
    rewrite H in Hk. contradiction.
  - intros H. destruct (groupby_sum key val view) as [|[k v] l] eqn:E;
      [reflexivity|]. exfalso.
    assert (Hin : In (k, v) (groupby_sum key val view))
      by (rewrite E; simpl; auto).
    apply In_groupby_sum in Hin as [[ir [Hin Ek]] _].
    rewrite (H ir Hin) in Ek. discriminate.
Qed.

(** X4: [groupby(key)[val].sum()] has one entry per key value that some
    row of the view carries, in strictly ascending key order; rows whose
    key is missing belong to no entry; the value of an entry is the total
    of [val] over the rows with that key. *)
Theorem groupby_sum_groups (key : Row -> option string) (val : Row -> Q)
    (view : DataFrame) :
  StronglySorted (fun a b => String.compare a b = Lt)
                 (map fst (groupby_sum key val view)) /\
  (forall k, In k (map fst (groupby_sum key val view)) <->
             has_group key view k) /\
  (forall k v, In (k, v) (groupby_sum key val view) ->
               (v == group_total key val k view)%Q).
Proof.
  split; [|split].
  - rewrite groupby_sum_keys. apply sorted_unique_strings.
  - intros k. rewrite groupby_sum_keys. apply In_group_keys.
  - intros k v H. apply (In_groupby_sum key val view k v H).
Qed.

(** ** Top publisher *)

(** X5: the top-publisher metric raises ValueError exactly when no row of
    the view has a Publisher: on an empty view, and on a view in which every
    Publisher cell is missing. *)
Theorem top_publisher_raises_iff (view : DataFrame) :
  top_publisher view =
    Raise (ValueError "attempt to get argmax of an empty sequence") <->
  forall ir, In ir view -> Publisher (snd ir) = None.
Proof.
  unfold top_publisher, idxmax.
  destruct (groupby_sum Publisher Global_Sales view) as [|kv s] eqn:E.
  - split; [|reflexivity]. intros _.
    exact (proj1 (groupby_sum_nil_iff Publisher Global_Sales view) E).
  - split; [discriminate|]. intros H.
    rewrite (proj2 (groupby_sum_nil_iff Publisher Global_Sales view) H) in E.
    discriminate.
Qed.

(** A row without Publisher is in no group: Sega is the top publisher
    although the row without Publisher sells more, the North America sums
    have the one entry of Sega, and a view of that row alone has no top
    publisher. *)
Example missing_publisher_dropped :
  top_publisher (read_csv unpublished_rows) = Ok "Sega" /\
  groupby_sum Publisher NA_Sales (read_csv unpublished_rows) =
    [("Sega", 2%Q)] /\
  index (filtered_df (read_csv unpublished_rows) (2011, 2011)
                     (Some "PC") (Some "Puzzle")) = [1%nat] /\
  top_publisher (filtered_df (read_csv unpublished_rows) (2011, 2011)
                             (Some "PC") (Some "Puzzle")) =
    Raise (ValueError "attempt to get argmax of an empty sequence").
Proof. repeat (split; [reflexivity|]). reflexivity. Qed.

(** ** More on the filtered view *)

Lemma row_selected_iff yr sp sg ir :
  row_selected yr sp sg ir = true <->
  in_year_range yr (snd ir) /\ on_platform sp (snd ir) /\ of_genre sg (snd ir).
Proof.
  unfold row_selected, in_year_range, on_platform, of_genre.
  rewrite !andb_true_iff. split.
  - intros [[[H1 H2] H3] H4]. split; [|split].
    + destruct (Year (snd ir)) as [y|]; [|discriminate].
      exists y. apply Z.leb_le in H1, H2. auto.
    + destruct sp as [k|]; [|discriminate].
      apply String.eqb_eq in H3. congruence.
    + destruct sg as [k|]; [|discriminate].
      apply String.eqb_eq in H4. congruence.
  - intros [[y [Ey [H1 H2]]] [H3 H4]]. rewrite Ey, <- H3, <- H4.
    rewrite !String.eqb_refl. repeat split; apply Z.leb_le; assumption.
Qed.

Lemma In_pie_df df sp ir :
  In ir (pie_df df sp) <-> In ir df /\ on_platform sp (snd ir).
Proof.
  rewrite pie_df_filter_opt, filter_In. unfold on_platform.
  destruct sp as [k|].
  - rewrite String.eqb_eq. split; intros [H1 H2]; split; congruence.
  - split; intros [_ H]; discriminate.
Qed.

Lemma filter_none {A : Type} (f : A -> bool) l :
  (forall x, In x l -> f x = false) -> filter f l = [].
Proof.
  induction l as [|x l IH]; intros H; simpl.
  - reflexivity.
  - rewrite (H x) by (simpl; auto). apply IH. intros y Hy. apply H. simpl. auto.
Qed.

Lemma StronglySorted_filter {A : Type} (R : A -> A -> Prop) (f : A -> bool) l :
  StronglySorted R l -> StronglySorted R (filter f l).
Proof.
  induction 1 as [|a l Hs IH Hf]; simpl.
  - constructor.
  - destruct (f a); [|exact IH]. constructor; [exact IH|].
    rewrite Forall_forall in *. intros b Hb.
    apply Hf. apply filter_In in Hb. tauto.
Qed.

Lemma seq_strictly_sorted n : forall s, StronglySorted lt (seq s n).
Proof.
  induction n as [|n IH]; intros s; simpl; constructor.
  - apply IH.
  - apply Forall_forall. intros x Hx. apply in_seq in Hx. lia.
Qed.

(** X7: the filtered view is the platform-only frame of the genre-share
    and box-plot panels narrowed by the year range and the genre: a row is
    in the view exactly when it is in that frame, its Year lies in the range
    and its Genre is the selected one. *)
Theorem filtered_df_narrows_pie_df (df : DataFrame) (yr : Z * Z)
    (sp sg : option string) (ir : nat * Row) :
  In ir (filtered_df df yr sp sg) <->
  In ir (pie_df df sp) /\ in_year_range yr (snd ir) /\ of_genre sg (snd ir).
Proof.
  rewrite filtered_df_filter, filter_In, row_selected_iff, In_pie_df. tauto.
Qed.

(** X8: a year range whose low end lies above its high end selects no
    row. *)
Theorem inverted_year_range_empty (df : DataFrame) (yr : Z * Z)
    (sp sg : option string) :
  snd yr < fst yr -> filtered_df df yr sp sg = [].
Proof.
  intros H. rewrite filtered_df_filter. apply filter_none.
  intros ir _. apply not_true_is_false. intros Hsel.
  apply row_selected_iff in Hsel as [[y [_ Hy]] _]. lia.
Qed.

Lemma inverted_year_range_empty_witness :
  snd (2000, 1990) < fst (2000, 1990) /\
  filtered_df (read_csv sample_rows) (2000, 1990) (Some "Wii") (Some "Sports")
  = [].
Proof.
  assert (H : snd (2000, 1990) < fst (2000, 1990)) by (simpl; lia).
  split; [exact H|].
  exact (inverted_year_range_empty (read_csv sample_rows) (2000, 1990)
           (Some "Wii") (Some "Sports") H).
Defined.

(** X9: widening the year range never removes a row from the view. *)
Theorem wider_year_range_keeps_rows (df : DataFrame) (yr yr' : Z * Z)
    (sp sg : option string) (ir : nat * Row) :
  fst yr' <= fst yr -> snd yr <= snd yr' ->
  In ir (filtered_df df yr sp sg) -> In ir (filtered_df df yr' sp sg).
Proof.
  intros Hlo Hhi. rewrite !filtered_df_filter, !filter_In, !row_selected_iff.
  intros [Hin [[y [Ey Hy]] Hrest]]. split; [exact Hin|].
  split; [|exact Hrest]. exists y. split; [exact Ey | lia].
Qed.

Lemma wider_year_range_keeps_rows_witness :
  let df := read_csv sample_rows in
  let ir := (0%nat, nth 0 sample_rows (mkRow "" "" None "" None 0 0 0 0 0)) in
  fst (1980, 2020) <= fst (2000, 2010) /\
  snd (2000, 2010) <= snd (1980, 2020) /\
  In ir (filtered_df df (2000, 2010) (Some "Wii") (Some "Sports")) /\
  In ir (filtered_df df (1980, 2020) (Some "Wii") (Some "Sports")).
Proof.
  cbv zeta.
  assert (H1 : fst (1980, 2020) <= fst (2000, 2010)) by (simpl; lia).
  assert (H2 : snd (2000, 2010) <= snd (1980, 2020)) by (simpl; lia).
  assert (H3 : In (0%nat, nth 0 sample_rows (mkRow "" "" None "" None 0 0 0 0 0))
                  (filtered_df (read_csv sample_rows) (2000, 2010)
                               (Some "Wii") (Some "Sports")))
    by (simpl; auto).
  split; [exact H1|]. split; [exact H2|]. split; [exact H3|].
  exact (wider_year_range_keeps_rows _ _ _ _ _ _ H1 H2 H3).
Defined.

(** X10: the rows of the filtered view stand in the order of the file:
    their labels increase strictly. *)
Theorem filtered_df_keeps_file_order (rows : list Row) (yr : Z * Z)
    (sp sg : option string) :
  StronglySorted lt (index (filtered_df (read_csv rows) yr sp sg)).
Proof.
  rewrite filtered_df_filter. unfold index.
  apply (StronglySorted_map fst lt), StronglySorted_filter.
  apply (StronglySorted_map fst lt).
  fold (index (read_csv rows)). rewrite index_read_csv.
  apply seq_strictly_sorted.
Qed.

(** ** Top publishers in North America and the data table *)

Lemma NoDup_firstn {A : Type} n (l : list A) : NoDup l -> NoDup (firstn n l).
Proof.
  intros H. rewrite <- (firstn_skipn n l) in H.
  apply NoDup_app_remove_r in H. exact H.
Qed.

(** X12: the top-publishers frame has at most 5 entries, as many as the
    view has publishers when that is fewer (a missing Publisher is no
    publisher); an entry pairs a publisher of the view with its NA_Sales
    total; no publisher occurs twice; the totals do not increase along the
    frame; and no publisher left out has a larger total than one that is
    listed. *)
Theorem top_na_sorted (np : NumpySort) (view : DataFrame) :
  length (top_na view) =
    Nat.min 5 (length (unique String.eqb (dropna (col Publisher view)))) /\
  StronglySorted (fun a b => (snd b <= snd a)%Q) (top_na view) /\
  NoDup (map fst (top_na view)) /\
  (forall p v, In (p, v) (top_na view) ->
     has_group Publisher view p /\
     (v == group_total Publisher NA_Sales p view)%Q) /\
  (forall q, has_group Publisher view q -> ~ In q (map fst (top_na view)) ->
     forall p v, In (p, v) (top_na view) ->
       (group_total Publisher NA_Sales q view <= v)%Q).
Proof.
  unfold top_na, head.
  set (G := groupby_sum Publisher NA_Sales view).
  pose proof (sort_values_desc_perm Qle_bool snd G) as Hp.
  assert (Hs : StronglySorted (fun a b : string * Q => (snd b <= snd a)%Q)
                 (sort_values_desc Qle_bool snd G)).
  { eapply StronglySorted_impl;
      [|apply (sort_values_desc_sorted Qle_bool snd G
                 Qle_bool_total Qle_bool_transitive)].
    intros a b Hab. apply Qle_bool_iff, Hab. }
  assert (Hnd : NoDup (map fst (sort_values_desc Qle_bool snd G))).
  { apply (Permutation_NoDup (l := map fst G)).
    - apply Permutation_map, Permutation_sym, Hp.
    - unfold G. rewrite groupby_sum_keys.
      apply (Permutation_NoDup
               (l := unique String.eqb (dropna (col Publisher view)))).
      + apply Permutation_sym, sorted_perm.
      + apply (unique_NoDup String.eqb String.eqb_eq). }
  set (S := sort_values_desc Qle_bool snd G) in *.
  split; [|split; [|split; [|split]]].
  - rewrite length_firstn. f_equal.
    rewrite (Permutation_length Hp). unfold G.
    rewrite <- (length_map fst), groupby_sum_keys.
    apply Permutation_length, sorted_perm.
  - apply StronglySorted_firstn, Hs.
  - rewrite <- firstn_map. apply NoDup_firstn, Hnd.
  - intros p v Hin. apply (In_groupby_sum Publisher NA_Sales view).
    apply (Permutation_in _ Hp).
    rewrite <- (firstn_skipn 5 S). apply in_or_app. auto.
  - intros q Hq Hnot p v Hin.
    apply In_group_keys in Hq.
    rewrite <- (groupby_sum_keys Publisher NA_Sales view) in Hq.
    fold G in Hq. apply in_map_iff in Hq as [[q' vq] [E Hq]].
    simpl in E. subst q'.
    destruct (In_groupby_sum Publisher NA_Sales view q vq Hq) as [_ Evq].
    rewrite <- Evq.
    apply (Permutation_in _ (Permutation_sym Hp)) in Hq. fold S in Hq.
    rewrite <- (firstn_skipn 5 S) in Hq, Hs.
    apply in_app_or in Hq as [Hq|Hq].
    + exfalso. apply Hnot. apply in_map_iff. exists (q, vq). auto.
    + apply (StronglySorted_cross _ _ _ Hs (p, v) (q, vq) Hin Hq).
Qed.

(** X13: the data table lists every row of the filtered view once, sorted
    non-increasing by Global_Sales, and the top-10 chart shows its first ten
    rows. *)
Theorem table_sorted (np : NumpySort) (view : DataFrame) :
  Permutation (table view) view /\
  non_increasing (table view) /\
  top_games view = firstn 10 (table view).
Proof.
  unfold table, non_increasing. split; [|split].
  - apply sort_values_desc_perm.
  - eapply StronglySorted_impl;
      [|apply (sort_values_desc_sorted Qle_bool
                 (fun ir : nat * Row => Global_Sales (snd ir)) view
                 Qle_bool_total Qle_bool_transitive)].
    intros a b Hab. apply Qle_bool_iff, Hab.
  - reflexivity.
Qed.

(** ** More on the releases per year *)

Lemma list_sum_perm l l' : Permutation l l' -> list_sum l = list_sum l'.
Proof.
  induction 1; simpl; lia.
Qed.

Lemma list_sum_indicator (z : Z) ks :
  NoDup ks -> In z ks ->
  list_sum (map (fun k => if Z.eq_dec z k then 1 else 0)%nat ks) = 1%nat.
Proof.
  induction 1 as [|k ks Hnotin Hnd IH]; simpl; [tauto|].
  intros [->|Hin].
  - destruct (Z.eq_dec z z) as [_|N]; [|contradiction]. f_equal.
    clear IH. induction ks as [|k ks IH]; simpl; [reflexivity|].
    destruct (Z.eq_dec z k) as [->|_]; [exfalso; apply Hnotin; simpl; auto|].
    apply IH.
    + intros H. apply Hnotin. simpl. auto.
    + inversion Hnd; assumption.
  - destruct (Z.eq_dec z k) as [->|_]; [contradiction|]. simpl. auto.
Qed.

Lemma counts_add_up (vals : list Z) : forall ks,
  NoDup ks -> (forall v, In v vals -> In v ks) ->
  list_sum (map (count_occ Z.eq_dec vals) ks) = length vals.
Proof.
  induction vals as [|z vals IH]; intros ks Hnd Hcov.
  - clear Hnd Hcov. induction ks; simpl; auto.
  - assert (E : list_sum (map (count_occ Z.eq_dec (z :: vals)) ks) =
                (list_sum (map (fun k => if Z.eq_dec z k then 1 else 0) ks) +
                 list_sum (map (count_occ Z.eq_dec vals) ks))%nat).
    { clear. induction ks as [|k ks IHk]; simpl; [reflexivity|].
      simpl in IHk. rewrite IHk. destruct (Z.eq_dec z k); simpl; lia. }
    rewrite E, (list_sum_indicator z ks Hnd) by (apply Hcov; simpl; auto).
    rewrite (IH ks Hnd) by (intros v Hv; apply Hcov; simpl; auto).
    reflexivity.
Qed.

Lemma dropna_all_present view :
  (forall ir, In ir view -> Year (snd ir) <> None) ->
  length (dropna (col Year view)) = length view.
Proof.
  unfold dropna, col. induction view as [|ir view IH]; intros H; simpl.
  - reflexivity.
  - destruct (Year (snd ir)) eqn:E.
    + simpl. f_equal. apply IH. intros x Hx. apply H. simpl. auto.
    + exfalso. apply (H ir); simpl; auto.
Qed.

Section GamesYear.

Context {np : NumpySort}.

Lemma games_year_perm view :
  Permutation (games_year view)
    (map (fun v => (v, count_occ Z.eq_dec (dropna (col Year view)) v))
         (unique Z.eqb (dropna (col Year view)))).
Proof.
  unfold games_year, value_counts.
  eapply perm_trans; [apply sort_index_perm | apply sort_values_desc_perm].
Qed.

Lemma games_year_ascending view :
  StronglySorted (fun a b => fst a < fst b) (games_year view).
Proof.
  apply strictly_sorted; [apply sort_index_sorted|].
  eapply Permutation_NoDup.
  - apply Permutation_map, Permutation_sym, games_year_perm.
  - rewrite map_map. simpl. rewrite map_id.
    apply (unique_NoDup Z.eqb Z.eqb_eq).
Qed.

End GamesYear.

(** X14: the counts of the per-year frame of a filtered view add up to the
    number of rows of the view, the Total Games metric. *)
Theorem games_year_counts_add_up (np : NumpySort) (df : DataFrame)
    (yr : Z * Z) (sp sg : option string) :
  list_sum (map snd (games_year (filtered_df df yr sp sg))) =
  total_games (filtered_df df yr sp sg).
Proof.
  set (view := filtered_df df yr sp sg).
  rewrite (list_sum_perm _ _ (Permutation_map snd (games_year_perm view))).
  rewrite map_map. simpl.
  rewrite counts_add_up.
  - apply dropna_all_present. intros ir Hin. unfold view in Hin.
    rewrite filtered_df_filter in Hin. apply filter_In in Hin as [_ Hsel].
    apply row_selected_iff in Hsel as [[y [Ey _]] _]. congruence.
  - apply (unique_NoDup Z.eqb Z.eqb_eq).
  - intros v Hv. apply (unique_In Z.eqb Z.eqb_eq). exact Hv.
Qed.

Lemma strictly_sorted_unique {A : Type} : forall l1 l2 : list (Z * A),
  StronglySorted (fun a b => fst a < fst b) l1 ->
  StronglySorted (fun a b => fst a < fst b) l2 ->
  (forall x, In x l1 <-> In x l2) -> l1 = l2.
Proof.
  induction l1 as [|a l1 IH]; intros [|b l2] H1 H2 Hiff.
  - reflexivity.
  - exfalso. apply (proj2 (Hiff b)). simpl. auto.
  - exfalso. apply (proj1 (Hiff a)). simpl. auto.
  - inversion H1 as [|? ? Hs1 Hf1]; inversion H2 as [|? ? Hs2 Hf2]; subst.
    rewrite Forall_forall in Hf1, Hf2.
    assert (E : a = b).
    { destruct (proj1 (Hiff a)) as [E|Ha]; [simpl; auto | auto |].
      destruct (proj2 (Hiff b)) as [E|Hb]; [simpl; auto | auto |].
      specialize (Hf1 b Hb). specialize (Hf2 a Ha). lia. }
    subst b. f_equal. apply IH; auto.
    intros x. split; intros Hx.
    + destruct (proj1 (Hiff x)) as [E|H]; [simpl; auto | | exact H].
      subst x. specialize (Hf1 a Hx). lia.
    + destruct (proj2 (Hiff x)) as [E|H]; [simpl; auto | | exact H].
      subst x. specialize (Hf2 a Hx). lia.
Qed.

(** X15: the per-year frame does not depend on how the default sort orders
    equal keys: every sort that meets numpy's guarantee gives the same
    frame. *)
Theorem games_year_any_sort (np1 np2 : NumpySort) (view : DataFrame) :
  @games_year np1 view = @games_year np2 view.
Proof.
  apply strictly_sorted_unique; try apply games_year_ascending.
  intros x. split; intros H.
  - apply (Permutation_in _ (@games_year_perm np1 view)) in H.
    apply (Permutation_in _ (Permutation_sym (@games_year_perm np2 view))), H.
  - apply (Permutation_in _ (@games_year_perm np2 view)) in H.
    apply (Permutation_in _ (Permutation_sym (@games_year_perm np1 view))), H.
Qed.

(** ** More on the selectboxes *)

Lemma sorted_head_least {A : Type} (leb : A -> A -> bool) l x :
  total leb -> transitive leb ->
  hd_error (sorted leb l) = Some x ->
  In x l /\ forall y, In y l -> leb x y = true.
Proof.
  intros Ht Htr Hhd.
  pose proof (sorted_perm leb l) as Hp.
  pose proof (sorted_sorted leb l Ht Htr) as Hs.
  destruct (sorted leb l) as [|a rest]; [discriminate|].
  inversion Hhd; subst a. split.
  - apply (Permutation_in _ Hp). simpl. auto.
  - intros y Hy. apply (Permutation_in _ (Permutation_sym Hp)) in Hy.
    inversion Hs as [|? ? _ Hf]; subst. destruct Hy as [<-|Hy].
    + destruct (Ht x x); assumption.
    + rewrite Forall_forall in Hf. apply Hf, Hy.
Qed.

Lemma platforms_nonempty df : df <> [] -> platforms df <> [].
Proof.
  destruct df as [|ir df']; [contradiction|]. intros _ E.
  assert (Hin : In (Platform (snd ir)) (platforms (ir :: df'))).
  { apply In_platforms. exists ir. simpl. auto. }
  rewrite E in Hin. contradiction.
Qed.

Lemma displayed_genres_nonempty df st p :
  selected_platform df st = Some p -> displayed_genres df st <> [].
Proof.
  intros Ep E.
  pose proof (selectbox_In _ _ _ Ep) as Hin.
  apply In_platforms in Hin as [ir [Hir Hpl]].
  assert (H : In (Genre (snd ir)) (displayed_genres df st)).
  { apply (In_displayed_genres df st p _ Ep), In_genres. eauto. }
  rewrite E in H. contradiction.
Qed.

(** A reachable session of a dataset with rows selects a platform and a
    genre of that platform. *)
Lemma selection_exists df st :
  df <> [] -> reachable df st ->
  exists p g,
    selected_platform df st = Some p /\ selected_genre df st = Some g /\
    In g (genres df (Some p)).
Proof.
  intros Hne Hr. destruct (reachable_ok df st Hr) as [Hp Hg].
  destruct (selectbox_some (st_platform st) (platforms df)
              (platforms_nonempty df Hne)) as [p Ep].
  { intros s Es _. apply (Hp s Es). }
  fold (selected_platform df st) in Ep.
  destruct (selectbox_some (st_genre st) (displayed_genres df st)
              (displayed_genres_nonempty df st p Ep)) as [g Eg].
  { intros s Es _. apply (Hg s Es). }
  exists p, g. split; [exact Ep|]. split; [exact Eg|].
  apply (In_displayed_genres df st p g Ep), (selectbox_In _ _ _ Eg).
Qed.

(** X16: on a page just opened over a dataset with rows, the selected
    platform is the first platform of the dataset in the order of the names,
    and the selected genre is the first genre of that platform in the same
    order. *)
Theorem fresh_page_defaults (df : DataFrame) :
  df <> [] ->
  exists p g,
    selected_platform df fresh_session = Some p /\
    selected_genre df fresh_session = Some g /\
    has_key Platform df p /\
    (forall q, has_key Platform df q -> String.leb p q = true) /\
    In g (genres df (Some p)) /\
    (forall g', In g' (genres df (Some p)) -> String.leb g g' = true).
Proof.
  intros Hne.
  destruct (selection_exists df fresh_session Hne (reach_fresh df))
    as [p [g [Ep [Eg Hg]]]].
  exists p, g. split; [exact Ep|]. split; [exact Eg|].
  assert (Hp : hd_error (platforms df) = Some p).
  { rewrite <- Ep. symmetry. apply selectbox_fresh. }
  assert (Hgh : hd_error (sorted String.leb (genres df (Some p))) = Some g).
  { rewrite <- Eg. unfold selected_genre. rewrite Ep.
    symmetry. apply selectbox_fresh. }
  destruct (sorted_head_least String.leb _ p string_leb_total
              string_leb_transitive Hp) as [Hin Hleast].
  destruct (sorted_head_least String.leb _ g string_leb_total
              string_leb_transitive Hgh) as [_ Hgleast].
  split.
  { apply In_platforms. unfold selected_platform in Ep.
    apply (selectbox_In _ _ _ Ep). }
  split.
  - intros q Hq. apply Hleast.
    apply (unique_In String.eqb String.eqb_eq).
    destruct Hq as [ir [Hir E]]. unfold col. apply in_map_iff. eauto.
  - split; [exact Hg | exact Hgleast].
Qed.

Lemma fresh_page_defaults_witness :
  let df := read_csv sample_rows in
  df <> [] /\
  exists p g,
    selected_platform df fresh_session = Some p /\
    selected_genre df fresh_session = Some g /\
    has_key Platform df p /\
    (forall q, has_key Platform df q -> String.leb p q = true) /\
    In g (genres df (Some p)) /\
    (forall g', In g' (genres df (Some p)) -> String.leb g g' = true).
Proof.
  cbv zeta.
  assert (Hne : read_csv sample_rows <> []) by (vm_compute; discriminate).
  split; [exact Hne|].
  exact (fresh_page_defaults (read_csv sample_rows) Hne).
Defined.



Lemma displayed_genres_platform df st st' :
  st_platform st' = st_platform st ->
  displayed_genres df st' = displayed_genres df st.
Proof.
  intros E. unfold displayed_genres, selected_platform. rewrite E. reflexivity.
Qed.

(** X18: moving the year slider changes neither the selected platform nor
    the selected genre, and a range with [low <= high] becomes the year
    range of the next run. *)
Theorem year_slider_keeps_selection (df : DataFrame) (st : SessionState)
    (low high : Z) :
  let st' := step df st (SetYearRange low high) in
  selected_platform df st' = selected_platform df st /\
  selected_genre df st' = selected_genre df st /\
  (low <= high -> slider (st_year_range st') (1980, 2020) = (low, high)).
Proof.
  cbv zeta. unfold step.
  set (st1 := on_event df st (SetYearRange low high)).
  assert (Hp : st_platform st1 = st_platform st).
  { unfold st1. simpl. destruct (low <=? high); reflexivity. }
  assert (Hg : st_genre st1 = st_genre st).
  { unfold st1. simpl. destruct (low <=? high); reflexivity. }
  assert (Hd : displayed_genres df st1 = displayed_genres df st)
    by (apply displayed_genres_platform, Hp).
  split; [|split].
  - unfold selected_platform. simpl. rewrite Hp. reflexivity.
  - unfold selected_genre.
    fold (displayed_genres df (forget_stale df st1)).
    fold (displayed_genres df st).
    rewrite (displayed_genres_platform df st1 (forget_stale df st1) eq_refl).
    rewrite Hd. simpl. rewrite Hg, Hd.
    destruct (st_genre st) as [s|]; [|reflexivity].
    unfold selectbox.
    destruct (list_eq_dec string_dec (sel_options s)
                          (displayed_genres df st)) as [E|N]; simpl.
    + destruct (list_eq_dec string_dec (sel_options s)
                            (displayed_genres df st)); [reflexivity|].
      contradiction.
    + reflexivity.
  - intros Hle. unfold st1. simpl.
    replace (low <=? high) with true by (symmetry; apply Z.leb_le, Hle).
    reflexivity.
Qed.

(** ** Bounds of the coefficients *)

Lemma sum_squares_nonneg (f : R * R -> R) (l : list (R * R)) :
  (0 <= fold_right (fun p acc => f p * f p + acc) 0 l)%R.
Proof.
  induction l as [|p l IH]; simpl.
  - lra.
  - pose proof (Rle_0_sqr (f p)) as H. unfold Rsqr in H. lra.
Qed.

(** The inequality of Cauchy and Schwarz over a list of pairs. *)
Lemma cauchy_schwarz (l : list (R * R)) :
  (fold_right (fun p acc => fst p * snd p + acc) 0 l *
   fold_right (fun p acc => fst p * snd p + acc) 0 l <=
   fold_right (fun p acc => fst p * fst p + acc) 0 l *
   fold_right (fun p acc => snd p * snd p + acc) 0 l)%R.
Proof.
  induction l as [|[a b] l IH]; simpl in *.
  - lra.
  - pose proof (sum_squares_nonneg fst l) as HA.
    pose proof (sum_squares_nonneg snd l) as HB.
    set (C := fold_right (fun p acc => fst p * snd p + acc)%R 0%R l) in *.
    set (A := fold_right (fun p acc => fst p * fst p + acc)%R 0%R l) in *.
    set (B := fold_right (fun p acc => snd p * snd p + acc)%R 0%R l) in *.
    clearbody C A B.
    assert (G : (2 * a * b * C <= a * a * B + A * b * b)%R).
    { destruct (Req_dec A 0) as [E|N].
      - rewrite E in IH.
        assert (Hc : (C * C = 0)%R).
        { pose proof (Rle_0_sqr C) as H. unfold Rsqr in H. lra. }
        apply Rmult_integral in Hc.
        assert (Hc0 : C = 0%R) by tauto.
        rewrite Hc0, E.
        pose proof (Rle_0_sqr a) as Ha. unfold Rsqr in Ha.
        pose proof (Rmult_le_pos _ _ Ha HB). lra.
      - assert (0 < A)%R by lra.
        pose proof (Rle_0_sqr (a * C - A * b)) as H1. unfold Rsqr in H1.
        assert (H2 : (0 <= a * a * (A * B - C * C))%R).
        { apply Rmult_le_pos; [|lra].
          pose proof (Rle_0_sqr a) as Ha. unfold Rsqr in Ha. exact Ha. }
        apply Rmult_le_reg_l with A; [assumption|]. lra. }
    lra.
Qed.

Lemma Q2R_sum_products {A : Type} (f g : A -> Q) (l : list A) :
  Q2R (sum (map (fun p => f p * g p)%Q l)) =
  fold_right (fun p acc => fst p * snd p + acc)%R 0%R
             (map (fun p => (Q2R (f p), Q2R (g p))) l).
Proof.
  induction l as [|p l IH]; simpl.
  - apply Q2R_zero.
  - rewrite <- IH, <- Q2R_mult, <- Q2R_plus.
    apply Qeq_eqR, sum_cons.
Qed.

Lemma map_combine_fst {A B C : Type} (h : A -> C) (xs : list A) :
  forall ys : list B, length xs = length ys ->
  map h xs = map (fun p => h (fst p)) (combine xs ys).
Proof.
  induction xs as [|x xs IH]; intros [|y ys] E; simpl in *; try discriminate.
  - reflexivity.
  - f_equal. apply IH. lia.
Qed.

Lemma map_combine_snd {A B C : Type} (h : B -> C) (ys : list B) :
  forall xs : list A, length xs = length ys ->
  map h ys = map (fun p => h (snd p)) (combine xs ys).
Proof.
  induction ys as [|y ys IH]; intros [|x xs] E; simpl in *; try discriminate.
  - reflexivity.
  - f_equal. apply IH. lia.
Qed.

Lemma map_combine_self {A C : Type} (h : A * A -> C) (l : list A) :
  map h (combine l l) = map (fun x => h (x, x)) l.
Proof.
  induction l as [|x l IH]; simpl.
  - reflexivity.
  - f_equal. exact IH.
Qed.

Lemma comoment_self xs :
  comoment xs xs =
  sum (map (fun x => (x - mean xs) * (x - mean xs))%Q xs).
Proof.
  unfold comoment. rewrite map_combine_self. reflexivity.
Qed.

Lemma pearson_bounded xs ys r :
  length xs = length ys -> pearson xs ys = Some r -> (-1 <= r <= 1)%R.
Proof.
  intros Hlen. unfold pearson.
  destruct (length xs <? 1)%nat; [discriminate|].
  destruct (Qeq_bool (comoment xs xs * comoment ys ys) 0) eqn:Ed;
    [discriminate|].
  intros H. inversion H; subst r; clear H.
  set (L := map (fun p : Q * Q => (Q2R (fst p - mean xs), Q2R (snd p - mean ys)))
                (combine xs ys)).
  assert (EC : Q2R (comoment xs ys) =
               fold_right (fun p acc => fst p * snd p + acc)%R 0%R L).
  { unfold comoment, L. apply Q2R_sum_products. }
  assert (EA : Q2R (comoment xs xs) =
               fold_right (fun p acc => fst p * fst p + acc)%R 0%R L).
  { rewrite comoment_self, (map_combine_fst _ xs ys Hlen).
    rewrite Q2R_sum_products. unfold L.
    clear. induction (combine xs ys) as [|p l IH]; simpl; [reflexivity|].
    rewrite IH. reflexivity. }
  assert (EB : Q2R (comoment ys ys) =
               fold_right (fun p acc => snd p * snd p + acc)%R 0%R L).
  { rewrite comoment_self, (map_combine_snd _ ys xs Hlen).
    rewrite Q2R_sum_products. unfold L.
    clear. induction (combine xs ys) as [|p l IH]; simpl; [reflexivity|].
    rewrite IH. reflexivity. }
  pose proof (cauchy_schwarz L) as CS.
  pose proof (sum_squares_nonneg fst L) as HA.
  pose proof (sum_squares_nonneg snd L) as HB.
  rewrite <- EC, <- EA, <- EB in *. rewrite Q2R_mult.
  set (c := Q2R (comoment xs ys)) in *.
  set (a := Q2R (comoment xs xs)) in *.
  set (b := Q2R (comoment ys ys)) in *.
  assert (Hab : (0 < a * b)%R).
  { assert (Hnz : (a * b <> 0)%R).
    { intros E. unfold a, b in E. rewrite <- Q2R_mult, <- Q2R_zero in E.
      apply eqR_Qeq, Qeq_bool_iff in E. congruence. }
    pose proof (Rmult_le_pos _ _ HA HB). lra. }
  clearbody c a b.
  pose proof (sqrt_lt_R0 _ Hab) as Hs.
  pose proof (sqrt_sqrt (a * b) (Rlt_le _ _ Hab)) as Hss.
  set (s := sqrt (a * b)) in *. clearbody s.
  assert (Hcs : (- s <= c <= s)%R).
  { split.
    - apply Rnot_lt_le. intros Hlt.
      assert (0 < (- c - s) * (- c + s))%R
        by (apply Rmult_lt_0_compat; lra).
      lra.
    - apply Rnot_lt_le. intros Hlt.
      assert (0 < (c - s) * (c + s))%R
        by (apply Rmult_lt_0_compat; lra).
      lra. }
  assert (E : (c / s * s = c)%R) by (field; lra).
  split.
  - apply Rmult_le_reg_r with s; [exact Hs|]. lra.
  - apply Rmult_le_reg_r with s; [exact Hs|]. lra.
Qed.

(** X19: every entry of the correlation matrix that is a number lies
    between -1 and 1 (coefficients computed in exact arithmetic). *)
Theorem corr_bounded (view : DataFrame) (i j : nat) (r : R) :
  (i < 5)%nat -> (j < 5)%nat ->
  corr_at (corr view) i j = Some r -> (-1 <= r <= 1)%R.
Proof.
  intros Hi Hj. rewrite corr_at_pearson by assumption.
  apply pearson_bounded. unfold col. rewrite !length_map. reflexivity.
Qed.

Lemma corr_bounded_witness :
  (0 < 5)%nat /\ (1 < 5)%nat /\
  exists r : R,
    corr_at (corr (read_csv sample_rows)) 0 1 = Some r /\
    (-1 <= r <= 1)%R.
Proof.
  assert (H0 : (0 < 5)%nat) by lia.
  assert (H1 : (1 < 5)%nat) by lia.
  split; [exact H0|]. split; [exact H1|].
  eexists. split; [reflexivity|].
  apply (corr_bounded (read_csv sample_rows) 0 1 _ H0 H1). reflexivity.
Defined.

(** X20: on every view the correlation matrix is symmetric, NaN entries
    included, and an entry of its diagonal is either 1 or NaN. *)
Theorem corr_symmetric_any_view (view : DataFrame) (i j : nat) :
  (i < 5)%nat -> (j < 5)%nat ->
  corr_at (corr view) i j = corr_at (corr view) j i /\
  (corr_at (corr view) i i = Some 1%R \/ corr_at (corr view) i i = None).
Proof.
  intros Hi Hj. rewrite !corr_at_pearson by assumption. split.
  - apply pearson_sym. unfold col. rewrite !length_map. reflexivity.
  - destruct (Qeq_dec (comoment (col (sales_column i) view)
                                (col (sales_column i) view)) 0) as [E|N].
    + right. apply pearson_nan_left, E.
    + left. apply pearson_self, N.
Qed.

Lemma corr_symmetric_any_view_witness :
  (2 < 5)%nat /\ (4 < 5)%nat /\
  corr_at (corr (read_csv wii_rows)) 2 4 =
  corr_at (corr (read_csv wii_rows)) 4 2 /\
  (corr_at (corr (read_csv wii_rows)) 2 2 = Some 1%R \/
   corr_at (corr (read_csv wii_rows)) 2 2 = None).
Proof.
  assert (H2 : (2 < 5)%nat) by lia.
  assert (H4 : (4 < 5)%nat) by lia.
  split; [exact H2|]. split; [exact H4|].
  exact (corr_symmetric_any_view (read_csv wii_rows) 2 4 H2 H4).
Defined.
